(** * Skill-matching workflow of nexus-backend

    A shallow embedding of the TypeScript script (its [main], the two
    store readers [getAllSkills] and [getPersonList], the writer
    [addSkillToPerson] and the three chat-completion callers) together
    with the properties its specification states about them.

    Layout: JavaScript values and helpers first ([Js]), the property
    graph behind the driver ([Store]), the schemas of the completions
    ([Schema]), the effect monad in which the [async] functions run
    ([Effects]), the functions of the script ([Script]) and the [main] of
    its earlier version ([Index]), the reference definition of the
    person/skill map ([Reference]), the observations on runs ([Observe]),
    concrete stores and environments ([Scenario]), and finally the
    proofs. *)

From Stdlib Require Import Ascii NArith Lia.
From stdpp Require Import base list strings gmap sorting.

#[local] Open Scope N_scope.

(* ================================================================== *)
(** ** JavaScript helpers used by the script *)
(* ================================================================== *)

Module Js.

(** [Array.prototype.join]: the elements separated by [sep]; the empty
    array joins to the empty string. *)
Fixpoint join (sep : string) (l : list string) : string :=
  match l with
  | [] => EmptyString
  | [x] => x
  | x :: rest => x +:+ sep +:+ join sep rest
  end.

(** The double-quote and backslash characters, by code point. *)
Definition dquote : ascii := ascii_of_N 34.
Definition backslash : ascii := ascii_of_N 92.

Definition str (c : ascii) : string := String c EmptyString.

Definition hexDigit (n : N) : ascii :=
  if n <? 10 then ascii_of_N (48 + n) else ascii_of_N (87 + n).

(** One code unit of [QuoteJSONString].  Strings are byte strings here
    (UTF-8); bytes from 0x20 on, apart from the quote and the backslash,
    are copied. *)
Definition quoteChar (c : ascii) : string :=
  let n := N_of_ascii c in
  if n =? 8 then String backslash "b"
  else if n =? 9 then String backslash "t"
  else if n =? 10 then String backslash "n"
  else if n =? 12 then String backslash "f"
  else if n =? 13 then String backslash "r"
  else if n =? 34 then String backslash (str dquote)
  else if n =? 92 then String backslash (str backslash)
  else if n <? 32 then
    String backslash
      (String "u" (String "0" (String "0"
         (String (hexDigit (n / 16)) (str (hexDigit (n mod 16)))))))
  else str c.

Fixpoint quoteBody (s : string) : string :=
  match s with
  | EmptyString => EmptyString
  | String c rest => quoteChar c +:+ quoteBody rest
  end.

Definition quoteJSONString (s : string) : string :=
  str dquote +:+ quoteBody s +:+ str dquote.

(** [JSON.stringify] of a [string[]]. *)
Definition stringifyArray (l : list string) : string :=
  "[" +:+ join "," (quoteJSONString <$> l) +:+ "]".

(** *** Property keys

    Own property keys are enumerated with the array indices first, in
    ascending order, then the other keys in creation order.  An array
    index is the canonical decimal form of an integer below 2^32 - 1. *)

Definition digitValue (c : ascii) : option N :=
  let n := N_of_ascii c in
  if (48 <=? n) && (n <=? 57) then Some (n - 48) else None.

Fixpoint decimalValue (acc : N) (s : string) : option N :=
  match s with
  | EmptyString => Some acc
  | String c rest =>
      match digitValue c with
      | Some d => decimalValue (10 * acc + d) rest
      | None => None
      end
  end.

Definition arrayIndex (s : string) : option N :=
  match s with
  | EmptyString => None
  | String c rest =>
      match decimalValue 0 s with
      | Some n =>
          if (N_of_ascii c =? 48) && negb (String.eqb rest EmptyString) then None
          else if n <? 4294967295 then Some n else None
      | None => None
      end
  end.

(** The property names every object literal inherits from
    [Object.prototype]; each of them reads as a truthy value (a function,
    or the prototype itself for [__proto__]) that has no [push]. *)
Definition objectPrototypeKeys : list string :=
  [ "constructor"; "__defineGetter__"; "__defineSetter__";
    "hasOwnProperty"; "__lookupGetter__"; "__lookupSetter__";
    "isPrototypeOf"; "propertyIsEnumerable"; "toString"; "valueOf";
    "__proto__"; "toLocaleString" ].

Definition inherited (key : string) : bool :=
  bool_decide (key ∈ objectPrototypeKeys).

(** *** Objects used as dictionaries

    An object literal whose values all have type [V]: its own
    properties, in creation order.  Reading a key looks at the own
    properties first and then at the prototype. *)
Definition object (V : Type) : Type := list (string * V).

Inductive property (V : Type) : Type :=
| Own (v : V)
| Inherited
| Undefined.
Arguments Own {V} v.
Arguments Inherited {V}.
Arguments Undefined {V}.

Fixpoint getOwn {V} (o : object V) (key : string) : option V :=
  match o with
  | [] => None
  | (k, v) :: rest => if String.eqb k key then Some v else getOwn rest key
  end.

Definition get {V} (o : object V) (key : string) : property V :=
  match getOwn o key with
  | Some v => Own v
  | None => if inherited key then Inherited else Undefined
  end.

(** [o[key] = v]: overwrites an own property in place, or creates it
    after the existing ones. *)
Fixpoint set {V} (o : object V) (key : string) (v : V) : object V :=
  match o with
  | [] => [(key, v)]
  | (k, w) :: rest =>
      if String.eqb k key then (k, v) :: rest else (k, w) :: set rest key v
  end.

Fixpoint insertIndex {V} (e : N * (string * V)) (l : list (N * (string * V)))
  : list (N * (string * V)) :=
  match l with
  | [] => [e]
  | e' :: rest => if fst e <=? fst e' then e :: l else e' :: insertIndex e rest
  end.

Definition indexEntries {V} (o : object V) : list (N * (string * V)) :=
  foldr insertIndex []
    (omap (fun kv => match arrayIndex (fst kv) with
                     | Some n => Some (n, kv)
                     | None => None
                     end) o).

(** The own enumerable properties in the order [JSON.stringify] and
    [Object.keys] visit them. *)
Definition ownEntries {V} (o : object V) : object V :=
  (snd <$> indexEntries o)
    ++ filter (fun kv => arrayIndex (fst kv) = None) o.

(** [JSON.stringify] of an object whose values are [string[]]. *)
Definition stringifyObject (o : object (list string)) : string :=
  "{" +:+ join ","
            ((fun kv => quoteJSONString (fst kv) +:+ ":" +:+ stringifyArray (snd kv))
               <$> ownEntries o)
      +:+ "}".

End Js.

(* ================================================================== *)
(** ** The graph store behind [databaseDriver] *)
(* ================================================================== *)

Module Store.

Inductive Label : Type := Person | Skill.

#[global] Instance Label_eq_dec : EqDecision Label.
Proof. solve_decision. Defined.

(** A node carries one label and its name property ([personName] for a
    [Person], [skillName] for a [Skill]). *)
Record Node : Type := mkNode {
  nodeId : nat;
  nodeLabel : Label;
  nodeName : string
}.

(** [rels] are the [HAS_SKILL] relationships, as (start id, end id). *)
Record Graph : Type := mkGraph {
  nodes : list Node;
  rels : list (nat * nat)
}.

(** The three statements the script sends, with their parameters. *)
Inductive Statement : Type :=
| MatchAllSkills
| MatchPersonsWithSkill (skillName : string)
| MergePersonSkill (personName skillName : string).

Definition cypher (st : Statement) : string :=
  match st with
  | MatchAllSkills => "MATCH (skill: Skill) RETURN skill"
  | MatchPersonsWithSkill _ =>
      "MATCH (person:Person)-[:HAS_SKILL]->(skill:Skill { skillName: $skillName }) RETURN person"
  | MergePersonSkill _ _ =>
      "MERGE (person:Person { personName: $personName }) MERGE (skill:Skill { skillName: $skillName }) MERGE (person)-[:HAS_SKILL]->(skill) RETURN person.name"
  end.

Definition labelled (l : Label) (name : string) (g : Graph) : list Node :=
  filter (fun n => nodeLabel n = l ∧ nodeName n = name) (nodes g).

Definition skillNodes (g : Graph) : list Node :=
  filter (fun n => nodeLabel n = Skill) (nodes g).

(** One row per path person -[HAS_SKILL]-> skill whose skill has the
    given name, relationship by relationship. *)
Definition personsWithSkill (skillName : string) (g : Graph) : list Node :=
  r ← rels g;
  person ← filter (fun n => nodeLabel n = Person ∧ nodeId n = fst r) (nodes g);
  _ ← filter (fun n => nodeLabel n = Skill ∧ nodeName n = skillName
                       ∧ nodeId n = snd r) (nodes g);
  [person].

Definition freshId (g : Graph) : nat :=
  S (foldr Nat.max 0%nat (nodeId <$> nodes g)).

(** [MERGE (n:l { name })]: every node that matches, or else a new one. *)
Definition mergeNode (l : Label) (name : string) (g : Graph)
  : Graph * list Node :=
  match labelled l name g with
  | [] =>
      let n := mkNode (freshId g) l name in
      (mkGraph (nodes g ++ [n]) (rels g), [n])
  | found => (g, found)
  end.

(** [MERGE (a)-[:HAS_SKILL]->(b)] for one bound pair. *)
Definition mergeRel (g : Graph) (r : nat * nat) : Graph :=
  if bool_decide (r ∈ rels g) then g
  else mkGraph (nodes g) (rels g ++ [r]).

Definition mergePersonSkill (personName skillName : string) (g : Graph)
  : Graph :=
  let '(g1, persons) := mergeNode Person personName g in
  let '(g2, skills) := mergeNode Skill skillName g1 in
  foldl mergeRel g2
    (p ← persons; s ← skills; [(nodeId p, nodeId s)]).

(** Modelled from the spec: the query executor of the graph store is an
    external service; it is given here for the three statements of the
    script as section 6 of the specification describes them (match all
    skill nodes, match the persons connected to a skill, idempotent
    merge of a person, a skill and the relationship between them).  The
    rows of the merge are not read by the script and are left out. *)
Definition execute (st : Statement) (g : Graph) : Graph * list Node :=
  match st with
  | MatchAllSkills => (g, skillNodes g)
  | MatchPersonsWithSkill s => (g, personsWithSkill s g)
  | MergePersonSkill p s => (mergePersonSkill p s g, [])
  end.

(** The names the two readers of the script take out of the rows. *)
Definition listAllSkills (g : Graph) : list string :=
  nodeName <$> skillNodes g.

Definition listPersonsWithSkill (g : Graph) (skillName : string)
  : list string :=
  nodeName <$> personsWithSkill skillName g.

End Store.


(* ================================================================== *)
(** ** Schemas of the structured completions *)
(* ================================================================== *)

Module Schema.

(** The three [z.object] schemas of the script. *)
Record Person : Type := mkPerson {
  name : string;
  personSkills : list string
}.

Record UsefulSkills : Type := mkUsefulSkills {
  skills : list string
}.

Record BestMatchingPerson : Type := mkBestMatchingPerson {
  personName : string;
  reason : string
}.

(** [zodResponseFormat(schema, name)], one per schema. *)
Inductive ResponseFormat : Type :=
| PersonFormat
| UsefulSkillsFormat
| BestMatchingPersonFormat.

Definition formatName (f : ResponseFormat) : string :=
  match f with
  | PersonFormat => "person"
  | UsefulSkillsFormat => "useful-skills"
  | BestMatchingPersonFormat => "best-matching-person"
  end.

Definition shape (f : ResponseFormat) : Type :=
  match f with
  | PersonFormat => Person
  | UsefulSkillsFormat => UsefulSkills
  | BestMatchingPersonFormat => BestMatchingPerson
  end.

End Schema.

(* ================================================================== *)
(** ** Effects: the world the [async] functions run in *)
(* ================================================================== *)

Module Effects.

Import Schema.

Inductive Error : Type :=
| StoreError      (* the driver rejects: the store cannot be reached *)
| ClientError     (* the completion client rejects *)
| TypeError.      (* raised by the script itself *)

(** How a call ends: with a value, with a thrown error (a rejected
    promise), or with [process.exit]. *)
Inductive Outcome (A : Type) : Type :=
| Returned (a : A)
| Thrown (e : Error)
| Exited (code : nat).
Arguments Returned {A} a.
Arguments Thrown {A} e.
Arguments Exited {A} code.

Inductive Role : Type := System | User.

Record Message : Type := mkMessage {
  role : Role;
  content : string
}.

Record ChatRequest : Type := mkChatRequest {
  model : string;
  messages : list Message
}.

(** What [openai.beta.chat.completions.parse] gives back: it rejects (the
    request fails, or the answer cannot be parsed or validated against
    the schema), or it resolves to a completion whose
    [choices[0].message.parsed] is the validated object, or [null] when
    the model gave no content to parse (a refusal). *)
Inductive Reply (A : Type) : Type :=
| Rejects
| Resolves (parsed : option A).
Arguments Rejects {A}.
Arguments Resolves {A} parsed.

(** Everything outside the script: the process environment, whether
    [neo4j.driver] accepts a connection URI (it throws on a malformed
    one), whether the server answers the driver it created, whether the
    store answers the n-th external call, and what the model answers to
    it. *)
Record Env : Type := mkEnv {
  processEnv : string -> option string;
  driverAccepts : string -> bool;
  serverAnswers : bool;
  storeUp : nat -> bool;
  completion : nat -> forall f : ResponseFormat, ChatRequest -> Reply (shape f)
}.

(** The state that changes: the global [databaseDriver] (assigned or
    not), the content of the store, and the number of external calls
    made so far. *)
Record World : Type := mkWorld {
  driver : bool;
  graph : Store.Graph;
  clock : nat
}.

Inductive Level : Type := LDebug | LLog | LError.

Inductive Printed : Type :=
| Text (s : string)
| SkillList (l : list string)
| Match (m : option BestMatchingPerson).

(** What an observer of a run sees, in order. *)
Inductive Event : Type :=
| Console (level : Level) (p : Printed)
| Connect (ok : bool)
| Query (st : Store.Statement) (ok : bool)
| Completion (f : ResponseFormat) (req : ChatRequest) (ok : bool).

Definition M (A : Type) : Type :=
  Env -> World -> Outcome A * World * list Event.

#[global] Instance M_ret : MRet M :=
  fun A a _ w => (Returned a, w, []).

#[global] Instance M_bind : MBind M :=
  fun A B f m env w =>
    match m env w with
    | (Returned a, w1, t1) =>
        let '(o, w2, t2) := f a env w1 in (o, w2, t1 ++ t2)
    | (Thrown e, w1, t1) => (Thrown e, w1, t1)
    | (Exited c, w1, t1) => (Exited c, w1, t1)
    end.

Definition throw {A} (e : Error) : M A :=
  fun _ w => (Thrown e, w, []).

(** [process.exit(code)] *)
Definition exit {A} (code : nat) : M A :=
  fun _ w => (Exited code, w, []).

(** [try { m } catch (err) { h }] *)
Definition tryCatch {A} (m : M A) (h : M A) : M A :=
  fun env w =>
    match m env w with
    | (Thrown _, w1, t1) =>
        let '(o, w2, t2) := h env w1 in (o, w2, t1 ++ t2)
    | r => r
    end.

Definition console (level : Level) (p : Printed) : M unit :=
  fun _ w => (Returned (), w, [Console level p]).

Definition getenv (key : string) : M (option string) :=
  fun env w => (Returned (processEnv env key), w, []).

(** [databaseDriver = neo4j.driver(...); await databaseDriver.getServerInfo()].
    When [neo4j.driver] throws on the URI, nothing is assigned and no
    connection is tried.  Otherwise the assignment comes first, so the
    driver stays assigned when the server does not answer. *)
Definition openDriver (uri username password : string) : M unit :=
  fun env w =>
    if driverAccepts env uri then
      let w' := mkWorld true (graph w) (clock w) in
      if serverAnswers env then (Returned (), w', [Connect true])
      else (Thrown StoreError, w', [Connect false])
    else (Thrown StoreError, w, []).

(** [await databaseDriver.executeQuery(statement, parameters)] *)
Definition executeQuery (st : Store.Statement) : M (list Store.Node) :=
  fun env w =>
    if driver w then
      if storeUp env (clock w) then
        let '(g, records) := Store.execute st (graph w) in
        (Returned records, mkWorld true g (S (clock w)), [Query st true])
      else
        (Thrown StoreError, mkWorld true (graph w) (S (clock w)),
         [Query st false])
    else (Thrown TypeError, w, []).

(** [await openai.beta.chat.completions.parse({ model, messages,
    response_format })], up to [completion.choices[0].message.parsed]. *)
Definition parse (f : ResponseFormat) (req : ChatRequest)
  : M (option (shape f)) :=
  fun env w =>
    let w' := mkWorld (driver w) (graph w) (S (clock w)) in
    match completion env (clock w) f req with
    | Rejects => (Thrown ClientError, w', [Completion f req false])
    | Resolves parsed => (Returned parsed, w', [Completion f req true])
    end.

(** A [for (... of l)] loop whose body updates a local variable. *)
Fixpoint forOf {A S} (l : list A) (body : S -> A -> M S) (s : S) : M S :=
  match l with
  | [] => mret s
  | x :: rest => s' ← body s x; forOf rest body s'
  end.

End Effects.


(* ================================================================== *)
(** ** The script *)
(* ================================================================== *)

Module Script.

Import Schema Effects.

Definition missing (v : option string) : bool :=
  match v with
  | None => true
  | Some s => String.eqb s EmptyString
  end.

Definition connectDatabase : M unit :=
  console LDebug (Text "Connecting to database...");;
  databaseUri ← getenv "NEO4J_URI";
  databaseUsername ← getenv "NEO4J_USERNAME";
  databasePassword ← getenv "NEO4J_PASSWORD";
  (if missing databaseUri then
     console LError (Text "Please set the environment variable 'NEO4J_URI'");;
     exit 1
   else mret ());;
  (if missing databaseUsername then
     console LError
       (Text "Please set the environment variable 'NEO4J_USERNAME'");;
     exit 1
   else mret ());;
  (if missing databasePassword then
     console LError
       (Text "Please set the environment variable 'NEO4J_PASSWORD'");;
     exit 1
   else mret ());;
  tryCatch
    (openDriver (default EmptyString databaseUri)
                (default EmptyString databaseUsername)
                (default EmptyString databasePassword))
    (console LError (Text "Can't connect to database.");;
     exit 1).

(** Returns a list of all skills in the database. *)
Definition getAllSkills : M (list string) :=
  console LDebug (Text "Getting all skills...");;
  records ← executeQuery Store.MatchAllSkills;
  mret (foldl (fun skillList record => skillList ++ [Store.nodeName record])
              [] records).

Definition PersonContainer : Type := Js.object (list string).

(** The body of the inner loop of [getPersonList]: the entry of the
    person is created, or the skill is pushed onto it.  A name that object
    literals inherit reads as truthy, so the [else] branch calls [push] on
    a value that has none. *)
Definition recordPerson (necessarySkill : string)
    (personContainer : PersonContainer) (record : Store.Node)
  : M PersonContainer :=
  let personName := Store.nodeName record in
  match Js.get personContainer personName with
  | Js.Undefined =>
      mret (Js.set personContainer personName [necessarySkill])
  | Js.Own held =>
      mret (Js.set personContainer personName (held ++ [necessarySkill]))
  | Js.Inherited => throw TypeError
  end.

(** The body of the outer loop of [getPersonList]: one query, then the
    inner loop over its rows. *)
Definition recordHolders (personContainer : PersonContainer)
    (necessarySkill : string) : M PersonContainer :=
  records ← executeQuery (Store.MatchPersonsWithSkill necessarySkill);
  forOf records (recordPerson necessarySkill) personContainer.

Definition getPersonList (necessarySkills : list string)
  : M PersonContainer :=
  console LLog (Text "Getting all persons having the necessary skills...");;
  forOf necessarySkills recordHolders ([] : PersonContainer).

Definition matchingSystemMessage : string :=
  "Find the person with the best matching skillset to solve the problem and justify your decision shortly.".

Definition matchingUserMessage (personContainer : PersonContainer)
    (problem : string) : string :=
  "The problem is the following: '" +:+ problem
    +:+ "' and the persons with the skills are the following: "
    +:+ Js.stringifyObject personContainer +:+ " ".

Definition matchingRequest (personContainer : PersonContainer)
    (problem : string) : ChatRequest :=
  let systemMessage := matchingSystemMessage in
  let userMessage := matchingUserMessage personContainer problem in
  mkChatRequest "gpt-4o"
    [mkMessage System systemMessage; mkMessage User userMessage].

Definition findMatchingPerson (personContainer : PersonContainer)
    (problem : string) : M (option BestMatchingPerson) :=
  console LLog (Text "Finding matching person...");;
  parse BestMatchingPersonFormat (matchingRequest personContainer problem).

Definition addSkillToPerson (person skill : string) : M unit :=
  console LDebug (Text "Adding skill to person...");;
  console LLog (Text ("Adding skill " +:+ skill));;
  executeQuery (Store.MergePersonSkill person skill);;
  mret ().

Definition extractSystemContent (person : string)
    (existingSkills : list string) : string :=
  let existingSkillJoined := Js.join ", " existingSkills in
  let systemContent :=
    "Extract the skills (preferably in one word) of the person called "
      +:+ person +:+ "." in
  if negb (Nat.eqb (length existingSkills) 0) then
    "Extract the skills (preferably in one word) of the person called "
      +:+ person
      +:+ ". The following skills already exist and can be used, but if the person has skills not in this list, create a new one: "
      +:+ existingSkillJoined
  else systemContent.

Definition extractRequest (text person : string)
    (existingSkills : list string) : ChatRequest :=
  mkChatRequest "gpt-4o"
    [mkMessage System (extractSystemContent person existingSkills);
     mkMessage User text].

(** [parsed?.skills] is [undefined] when [parsed] is [null]. *)
Definition extractSkills (text person : string)
    (existingSkills : list string) : M (option (list string)) :=
  console LDebug (Text "Extracting skills...");;
  parsed ← parse PersonFormat (extractRequest text person existingSkills);
  mret (personSkills <$> parsed).

Definition necessarySystemContent (existingSkills : list string) : string :=
  "Find the skills out of the following list that could help the most with the problem the user describes. "
    +:+ Js.join ", " existingSkills.

Definition necessaryRequest (text : string)
    (existingSkills : list string) : ChatRequest :=
  mkChatRequest "gpt-4o"
    [mkMessage System (necessarySystemContent existingSkills);
     mkMessage User text].

(** Finds skills, which could be helpful to solve the described problem. *)
Definition findNecessarySkills (text : string)
    (existingSkills : list string) : M (option (list string)) :=
  console LDebug (Text "Finding necessary skills...");;
  parsed ← parse UsefulSkillsFormat (necessaryRequest text existingSkills);
  mret (skills <$> parsed).

(** The body of [main] after the connection, for a given problem text
    (the constants [personName] and [text] of [main] are read by
    commented-out calls only).  [if (usefulSkills)] is taken for every
    array, the empty one too, and skipped for [undefined] only. *)
Definition workflow (problem : string) : M unit :=
  allSkills ← getAllSkills;
  let extractedSkills := ["Java"; "JavaScript"; "Rust"] in
  forOf extractedSkills (fun (_ : unit) (skill : string) => mret ()) ();;
  usefulSkills ← findNecessarySkills problem allSkills;
  match usefulSkills with
  | Some usefulSkills =>
      console LLog (SkillList usefulSkills);;
      personContainer ← getPersonList usefulSkills;
      matchingPerson ← findMatchingPerson personContainer problem;
      console LLog (Match matchingPerson)
  | None => mret ()
  end.

Definition mainWith (problem : string) : M unit :=
  connectDatabase;;
  workflow problem.

Definition main : M unit :=
  mainWith "I need a JavaScript and a C# expert.".

End Script.

(* ================================================================== *)
(** ** The earlier version of the script (index.ts) *)
(* ================================================================== *)

Module Index.

Import Schema Effects Script.

(** This version shares [connectDatabase], [getAllSkills],
    [addSkillToPerson], [extractSkills] and [findNecessarySkills] with the
    script above; it has no [getPersonList] and no [findMatchingPerson]. *)
Definition getAllPersons : M (list string) :=
  console LDebug (Text "Getting all persons...");;
  mret [].

Definition main : M unit :=
  connectDatabase;;
  allSkills ← getAllSkills;
  let extractedSkills := ["Java"; "JavaScript"; "Rust"] in
  forOf extractedSkills (fun (_ : unit) (skill : string) => mret ()) ();;
  usefulSkills ← findNecessarySkills "I need a Java expert." allSkills;
  match usefulSkills with
  | Some usefulSkills => console LLog (SkillList usefulSkills)
  | None => mret ()
  end.

End Index.


(* ================================================================== *)
(** ** Reference definition of the person/skill map *)
(* ================================================================== *)

Module Reference.

(** Append the skill to the list of the person, creating the list when
    this is the first appearance of the person. *)
Definition appendSkill (skill : string) (m : gmap string (list string))
    (person : string) : gmap string (list string) :=
  <[person := default [] (m !! person) ++ [skill]]> m.

(** For each skill, in order, for each person holding it. *)
Definition personSkillMap (listPersonsWithSkill : string -> list string)
    (relevantSkills : list string) : gmap string (list string) :=
  foldl (fun m skill => foldl (appendSkill skill) m (listPersonsWithSkill skill))
        ∅ relevantSkills.

End Reference.

(* ================================================================== *)
(** ** Observations on runs *)
(* ================================================================== *)

Module Observe.

Import Schema Effects.

(** An external call that failed. *)
Definition failed (e : Event) : bool :=
  match e with
  | Query _ ok => negb ok
  | Completion _ _ ok => negb ok
  | _ => false
  end.

Definition errorOf (e : Event) : Error :=
  match e with
  | Completion _ _ _ => ClientError
  | _ => StoreError
  end.

(** The line on which [main] prints the match result. *)
Definition isMatchLog (e : Event) : bool :=
  match e with
  | Console _ (Match _) => true
  | _ => false
  end.

(** A call of the extraction client for the best matching person. *)
Definition isMatchCall (e : Event) : bool :=
  match e with
  | Completion BestMatchingPersonFormat _ _ => true
  | _ => false
  end.

Definition isPersonQuery (e : Event) : bool :=
  match e with
  | Query (Store.MatchPersonsWithSkill _) _ => true
  | _ => false
  end.

Definition isWrite (e : Event) : bool :=
  match e with
  | Query (Store.MergePersonSkill _ _) _ => true
  | _ => false
  end.

(** The external calls of a run, without the console lines. *)
Definition isCall (e : Event) : bool :=
  match e with
  | Query _ _ | Completion _ _ _ => true
  | _ => false
  end.

Definition calls (t : list Event) : list Event := List.filter isCall t.

Definition notCall (e : Event) : bool := negb (isCall e).
Definition notWrite (e : Event) : bool := negb (isWrite e).
Definition notMatchLog (e : Event) : bool := negb (isMatchLog e).

(** Every event of every run of [m] is of the class [P]. *)
Definition emits {A} (P : Event -> bool) (m : M A) : Prop :=
  forall env w, Forall (fun e => P e = true) (m env w).2.

(** No run of [m] changes the content of the store. *)
Definition keepsGraph {A} (m : M A) : Prop :=
  forall env w, graph (m env w).1.2 = graph w.

(** A failed external call is the last event of the run, and the run
    ends with the error of that call. *)
Definition failsLast {A} (o : Outcome A) (t : list Event) : Prop :=
  forall i e,
    t !! i = Some e -> failed e = true ->
    S i = length t /\ o = Thrown (errorOf e).

Definition abortsOnFailure {A} (m : M A) : Prop :=
  forall env w, failsLast (m env w).1.1 (m env w).2.

(** A match result is printed only by runs that return. *)
Definition matchOnlyOnReturn {A} (m : M A) : Prop :=
  forall env w,
    existsb isMatchLog (m env w).2 = true ->
    exists a, (m env w).1.1 = Returned a.

Definition isConnect (e : Event) : bool :=
  match e with
  | Connect _ => true
  | _ => false
  end.

(** Events of the first two steps: no person query, no call for the best
    matching person, no printed match. *)
Definition upToStepTwo (e : Event) : bool :=
  negb (isPersonQuery e) && negb (isMatchCall e) && negb (isMatchLog e).

(** The three connection parameters are set and not empty. *)
Definition configured (env : Env) : bool :=
  negb (Script.missing (processEnv env "NEO4J_URI"))
  && negb (Script.missing (processEnv env "NEO4J_USERNAME"))
  && negb (Script.missing (processEnv env "NEO4J_PASSWORD")).

(** Reading back what [Js.quoteBody] writes: the character an escape
    stands for, other characters as they are. *)
Definition hexValue (c : ascii) : N :=
  let n := N_of_ascii c in
  if n <? 58 then n - 48 else n - 87.

Fixpoint unquoteBody (s : string) : string :=
  match s with
  | EmptyString => EmptyString
  | String c rest =>
      if N_of_ascii c =? 92 then
        match rest with
        | EmptyString => EmptyString
        | String e rest' =>
            let n := N_of_ascii e in
            if n =? 98 then String (ascii_of_N 8) (unquoteBody rest')
            else if n =? 116 then String (ascii_of_N 9) (unquoteBody rest')
            else if n =? 110 then String (ascii_of_N 10) (unquoteBody rest')
            else if n =? 102 then String (ascii_of_N 12) (unquoteBody rest')
            else if n =? 114 then String (ascii_of_N 13) (unquoteBody rest')
            else if n =? 117 then
              match rest' with
              | String _ (String _ (String h (String l rest''))) =>
                  String (ascii_of_N (16 * hexValue h + hexValue l))
                         (unquoteBody rest'')
              | _ => EmptyString
              end
            else String e (unquoteBody rest')
        end
      else String c (unquoteBody rest)
  end.

(** A character that is written as it is: not a control character, not
    the quote, not the backslash. *)
Definition plainChar (c : ascii) : bool :=
  let n := N_of_ascii c in
  negb (n <? 32) && negb (n =? 34) && negb (n =? 92).

Fixpoint plain (s : string) : bool :=
  match s with
  | EmptyString => true
  | String c rest => plainChar c && plain rest
  end.

(** A name without a comma. *)
Fixpoint commaFree (s : string) : bool :=
  match s with
  | EmptyString => true
  | String c rest => negb (Ascii.eqb c ",") && commaFree rest
  end.

(** A store in which node identifiers are unique and relationships join
    existing nodes. *)
Definition wellFormed (g : Store.Graph) : Prop :=
  NoDup (Store.nodeId <$> Store.nodes g)
  /\ forall r, r ∈ Store.rels g ->
       r.1 ∈ (Store.nodeId <$> Store.nodes g)
       /\ r.2 ∈ (Store.nodeId <$> Store.nodes g).

(** The map [m] lists the skill in the entry of the person. *)
Definition lists (m : gmap string (list string)) (person skill : string)
  : Prop :=
  exists held, m !! person = Some held /\ skill ∈ held.

(** The object [c] holds exactly the entries of the map [m]. *)
Definition represents (c : Js.object (list string))
    (m : gmap string (list string)) : Prop :=
  forall person, Js.getOwn c person = m !! person.

End Observe.

(* ================================================================== *)
(** ** Concrete stores and environments *)
(* ================================================================== *)

Module Scenario.

Import Schema Effects.

(** Three skills; Ada Lovelace holds Java. *)
Definition adaGraph : Store.Graph :=
  Store.mkGraph
    [ Store.mkNode 1 Store.Skill "Java";
      Store.mkNode 2 Store.Skill "JavaScript";
      Store.mkNode 3 Store.Skill "Rust";
      Store.mkNode 4 Store.Person "Ada Lovelace" ]
    [ (4, 1) ]%nat.

(** Lius Hohmann holds JavaScript and C#. *)
Definition liusGraph : Store.Graph :=
  Store.mkGraph
    [ Store.mkNode 1 Store.Skill "JavaScript";
      Store.mkNode 2 Store.Skill "C#";
      Store.mkNode 3 Store.Person "Lius Hohmann" ]
    [ (3, 1); (3, 2) ]%nat.

(** A person whose name is a property that object literals inherit. *)
Definition constructorGraph : Store.Graph :=
  Store.mkGraph
    [ Store.mkNode 1 Store.Skill "Rust";
      Store.mkNode 2 Store.Person "constructor" ]
    [ (2, 1) ]%nat.

(** A store whose only skill has the empty name. *)
Definition unnamedSkillGraph : Store.Graph :=
  Store.mkGraph [ Store.mkNode 1 Store.Skill EmptyString ] [].

Definition emptyGraph : Store.Graph := Store.mkGraph [] [].

Definition adaMatch : BestMatchingPerson :=
  mkBestMatchingPerson "Ada Lovelace" "She is the only candidate.".

(** An environment in which the connection parameters are set, the store
    answers every call except the [down]-th, and the model answers the
    skill request with [useful] and the match request with [best]. *)
Definition answering (down : option nat)
    (useful : Reply UsefulSkills) (best : Reply BestMatchingPerson) : Env :=
  mkEnv
    (fun _ => Some "set")
    (fun _ => true)
    true
    (fun n => negb (bool_decide (Some n = down)))
    (fun _ f =>
       match f return ChatRequest -> Reply (shape f) with
       | PersonFormat => fun _ => Resolves None
       | UsefulSkillsFormat => fun _ => useful
       | BestMatchingPersonFormat => fun _ => best
       end).

(** The same, without the variable [key] in the process environment. *)
Definition lacking (key : string) (env : Env) : Env :=
  mkEnv
    (fun k => if String.eqb k key then None else processEnv env k)
    (driverAccepts env) (serverAnswers env) (storeUp env) (completion env).

(** The same, with a server that does not answer the driver. *)
Definition unreachable (env : Env) : Env :=
  mkEnv (processEnv env) (driverAccepts env) false (storeUp env)
        (completion env).

(** The same, with a connection URI that [neo4j.driver] does not
    accept. *)
Definition malformed (env : Env) : Env :=
  mkEnv (processEnv env) (fun _ => false) (serverAnswers env) (storeUp env)
        (completion env).

(** The world once the driver is assigned, before any external call. *)
Definition connected (g : Store.Graph) : World := mkWorld true g 0.

(** The world when the script starts. *)
Definition initial (g : Store.Graph) : World := mkWorld false g 0.

End Scenario.

(* ================================================================== *)
(** ** Proofs *)
(* ================================================================== *)

Import Schema Effects Script Observe.

(** *** Running the monad *)

Lemma run_bind {A B} (m : M A) (f : A -> M B) env w :
  (m ≫= f) env w =
  match m env w with
  | (Returned a, w1, t1) =>
      let '(o, w2, t2) := f a env w1 in (o, w2, t1 ++ t2)
  | (Thrown e, w1, t1) => (Thrown e, w1, t1)
  | (Exited c, w1, t1) => (Exited c, w1, t1)
  end.
Proof. reflexivity. Qed.

Lemma run_ret {A} (a : A) env w :
  (mret a : M A) env w = (Returned a, w, []).
Proof. reflexivity. Qed.

Lemma run_console level p env w :
  console level p env w = (Returned (), w, [Console level p]).
Proof. reflexivity. Qed.

(** *** Strings *)

Lemma append_inj_l (s a b : string) : s +:+ a = s +:+ b -> a = b.
Proof.
  induction s as [|c s IH]; simpl; [done|].
  intros H. injection H as H. auto.
Qed.

Lemma append_empty (a b : string) :
  a +:+ b = EmptyString -> a = EmptyString /\ b = EmptyString.
Proof. destruct a; simpl; [done | discriminate]. Qed.

Lemma join_empty (sep : string) (l : list string) :
  sep <> EmptyString ->
  Js.join sep l = EmptyString <-> l = [] \/ l = [EmptyString].
Proof.
  intros Hsep. split.
  - destruct l as [|x [|y rest]]; simpl.
    + by left.
    + intros ->. by right.
    + intros H. apply append_empty in H as [_ H].
      apply append_empty in H as [H _]. done.
  - intros [-> | ->]; reflexivity.
Qed.

(** *** Objects *)

Lemma getOwn_set {V} (o : Js.object V) key v person :
  Js.getOwn (Js.set o key v) person =
  if String.eqb key person then Some v else Js.getOwn o person.
Proof.
  induction o as [|[k w] rest IH]; simpl.
  - reflexivity.
  - destruct (String.eqb_spec k key) as [->|Hk]; simpl.
    + destruct (String.eqb_spec key person); reflexivity.
    + rewrite IH.
      destruct (String.eqb_spec k person) as [->|]; [|reflexivity].
      destruct (String.eqb_spec key person); congruence.
Qed.

Lemma represents_empty : represents [] ∅.
Proof. intros p. by rewrite lookup_empty. Qed.

Lemma represents_set c m key v :
  represents c m -> represents (Js.set c key v) (<[key := v]> m).
Proof.
  intros H p. rewrite getOwn_set, lookup_insert.
  destruct (String.eqb_spec key p) as [->|Hne].
  - by rewrite decide_True.
  - by rewrite decide_False.
Qed.

(** *** The loops of [getPersonList] *)

(** One row: the entry is created or extended, unless the name is one
    that object literals inherit. *)
Lemma recordPerson_run skill c record env w :
  recordPerson skill c record env w =
  match Js.getOwn c (Store.nodeName record) with
  | Some held =>
      (Returned (Js.set c (Store.nodeName record) (held ++ [skill])), w, [])
  | None =>
      if Js.inherited (Store.nodeName record) then (Thrown TypeError, w, [])
      else (Returned (Js.set c (Store.nodeName record) [skill]), w, [])
  end.
Proof.
  unfold recordPerson, Js.get.
  destruct (Js.getOwn c _); [reflexivity|].
  destruct (Js.inherited _); reflexivity.
Qed.

Lemma recordPerson_returned skill c m record env w c' w' t :
  represents c m ->
  recordPerson skill c record env w = (Returned c', w', t) ->
  represents c' (Reference.appendSkill skill m (Store.nodeName record))
  /\ w' = w /\ t = [].
Proof.
  intros Hc. rewrite recordPerson_run. unfold Reference.appendSkill.
  rewrite <- (Hc (Store.nodeName record)).
  destruct (Js.getOwn c _) as [held|] eqn:Hown; simpl.
  - intros [= <- <- <-]. auto using represents_set.
  - destruct (Js.inherited _); [discriminate|].
    intros [= <- <- <-]. auto using represents_set.
Qed.

Lemma rows_returned skill records :
  forall c m env w c' w' t,
    represents c m ->
    forOf records (recordPerson skill) c env w = (Returned c', w', t) ->
    represents c'
      (foldl (Reference.appendSkill skill) m (Store.nodeName <$> records))
    /\ w' = w /\ t = [].
Proof.
  induction records as [|r records IH]; intros c m env w c' w' t Hc; simpl.
  - rewrite run_ret. intros [= <- <- <-]. auto.
  - rewrite run_bind.
    destruct (recordPerson skill c r env w) as [[o w1] t1] eqn:Hrow.
    destruct o as [c1|e|code]; [|discriminate..].
    destruct (recordPerson_returned _ _ _ _ _ _ _ _ _ Hc Hrow) as (Hc1 & -> & ->).
    destruct (forOf records _ c1 env w) as [[o2 w2] t2] eqn:Hrest.
    intros [= -> <- <-].
    apply (IH _ _ _ _ _ _ _ Hc1) in Hrest as (? & -> & ->). auto.
Qed.

(** The rows are recorded whenever none of the names is inherited. *)
Lemma rows_total skill records :
  forall c env w,
    (forall r, r ∈ records -> Js.inherited (Store.nodeName r) = false) ->
    exists c', forOf records (recordPerson skill) c env w = (Returned c', w, []).
Proof.
  induction records as [|r records IH]; intros c env w Hnames; simpl.
  - eexists. reflexivity.
  - rewrite run_bind, recordPerson_run.
    rewrite (Hnames r) by apply list_elem_of_here.
    assert (Hrest : forall r', r' ∈ records ->
                     Js.inherited (Store.nodeName r') = false)
      by (intros; apply Hnames; by apply list_elem_of_further).
    destruct (Js.getOwn c _).
    + destruct (IH (Js.set c (Store.nodeName r) (l ++ [skill])) env w Hrest)
        as [c' ->]. eauto.
    + destruct (IH (Js.set c (Store.nodeName r) [skill]) env w Hrest)
        as [c' ->]. eauto.
Qed.

(** Case analysis on the run of a loop that occurs in the goal. *)
Ltac destruct_loop o w t H :=
  match goal with
  | |- context [forOf ?l ?body ?s ?env ?w0] =>
      destruct (forOf l body s env w0) as [[o w] t] eqn:H
  end.

Lemma run_personQuery skill env w :
  executeQuery (Store.MatchPersonsWithSkill skill) env w =
  if driver w then
    if storeUp env (clock w) then
      (Returned (Store.personsWithSkill skill (graph w)),
       mkWorld true (graph w) (S (clock w)),
       [Query (Store.MatchPersonsWithSkill skill) true])
    else
      (Thrown StoreError, mkWorld true (graph w) (S (clock w)),
       [Query (Store.MatchPersonsWithSkill skill) false])
  else (Thrown TypeError, w, []).
Proof. reflexivity. Qed.

Lemma holders_returned skills :
  forall c m env w c' w' t,
    represents c m ->
    forOf skills recordHolders c env w = (Returned c', w', t) ->
    represents c'
      (foldl (fun m skill =>
                foldl (Reference.appendSkill skill) m
                      (Store.listPersonsWithSkill (graph w) skill))
             m skills)
    /\ graph w' = graph w
    /\ clock w' = (clock w + length skills)%nat
    /\ t = (fun skill => Query (Store.MatchPersonsWithSkill skill) true)
             <$> skills.
Proof.
  induction skills as [|s skills IH]; intros c m env w c' w' t Hc; simpl.
  - rewrite run_ret. intros [= <- <- <-]. repeat split; auto with lia.
  - rewrite run_bind. unfold recordHolders at 1.
    rewrite run_bind, run_personQuery.
    destruct (driver w); [|discriminate].
    destruct (storeUp env (clock w)); [|discriminate].
    destruct_loop o1 w1 t1 Hrows.
    destruct o1 as [c1|e|code]; [|discriminate..].
    apply (rows_returned _ _ _ _ _ _ _ _ _ Hc) in Hrows as (Hc1 & -> & ->).
    destruct_loop o2 w2 t2 Hrest.
    intros [= -> <- <-].
    apply (IH _ _ _ _ _ _ _ Hc1) in Hrest as (Hc' & Hg & Hk & ->).
    simpl in *. repeat split; auto with lia.
Qed.

Lemma holders_total skills :
  forall c env w,
    driver w = true ->
    (forall i, (i < length skills)%nat -> storeUp env (clock w + i) = true) ->
    (forall skill person,
        skill ∈ skills ->
        person ∈ Store.listPersonsWithSkill (graph w) skill ->
        Js.inherited person = false) ->
    exists c',
      forOf skills recordHolders c env w =
      (Returned c',
       mkWorld true (graph w) (clock w + length skills),
       (fun skill => Query (Store.MatchPersonsWithSkill skill) true)
         <$> skills).
Proof.
  induction skills as [|s skills IH]; intros c env w Hd Hup Hnames; simpl.
  - exists c. rewrite run_ret. destruct w; simpl in *. subst.
    by rewrite Nat.add_0_r.
  - rewrite run_bind. unfold recordHolders at 1.
    assert (Hup0 : storeUp env (clock w) = true).
    { rewrite <- (Nat.add_0_r (clock w)). apply Hup. simpl. lia. }
    rewrite run_bind, run_personQuery, Hd, Hup0.
    destruct (rows_total s (Store.personsWithSkill s (graph w)) c env
                (mkWorld true (graph w) (S (clock w)))) as [c1 ->].
    { intros r Hr. apply (Hnames s); [apply list_elem_of_here|].
      unfold Store.listPersonsWithSkill. by apply list_elem_of_fmap_2. }
    destruct (IH c1 env (mkWorld true (graph w) (S (clock w)))) as [c' ->];
      simpl; auto.
    + intros i Hi. replace (S (clock w + i)) with (clock w + S i)%nat by lia.
      apply Hup. simpl. lia.
    + intros skill person Hs. apply Hnames. by apply list_elem_of_further.
    + exists c'. do 3 f_equal. lia.
Qed.

(** [getPersonList] builds the reference map whenever it returns. *)
Lemma getPersonList_refines skills env w c w' t :
  getPersonList skills env w = (Returned c, w', t) ->
  represents c
    (Reference.personSkillMap (Store.listPersonsWithSkill (graph w)) skills)
  /\ graph w' = graph w.
Proof.
  unfold getPersonList. rewrite run_bind, run_console.
  destruct (forOf skills recordHolders [] env w) as [[o w1] t1] eqn:Hloop.
  intros [= -> <- <-].
  apply (holders_returned _ _ _ _ _ _ _ _ represents_empty) in Hloop
    as (Hc & Hg & _). auto.
Qed.

(** It returns whenever the driver is assigned, the store answers each
    query, and no person of the answers bears an inherited name. *)
Lemma getPersonList_total skills env w :
  driver w = true ->
  (forall i, (i < length skills)%nat -> storeUp env (clock w + i) = true) ->
  (forall skill person,
      skill ∈ skills ->
      person ∈ Store.listPersonsWithSkill (graph w) skill ->
      Js.inherited person = false) ->
  exists c,
    getPersonList skills env w =
    (Returned c,
     mkWorld true (graph w) (clock w + length skills),
     Console LLog (Text "Getting all persons having the necessary skills...")
       :: ((fun skill => Query (Store.MatchPersonsWithSkill skill) true)
             <$> skills)).
Proof.
  intros Hd Hup Hnames. unfold getPersonList.
  rewrite run_bind, run_console.
  destruct (holders_total skills [] env w Hd Hup Hnames) as [c ->].
  by exists c.
Qed.

(** *** The reference map, entry by entry *)

Lemma appendAll_lookup skill persons :
  forall (m : gmap string (list string)) person,
    NoDup persons ->
    foldl (Reference.appendSkill skill) m persons !! person =
    if decide (person ∈ persons)
    then Some (default [] (m !! person) ++ [skill])
    else m !! person.
Proof.
  induction persons as [|q persons IH]; intros m person Hnd; cbn [foldl].
  - rewrite decide_False; [done | apply not_elem_of_nil].
  - apply NoDup_cons in Hnd as [Hq Hnd]. rewrite IH by done.
    unfold Reference.appendSkill. destruct (decide (person = q)) as [->|Hne].
    + rewrite decide_False by done.
      rewrite decide_True by apply list_elem_of_here.
      by rewrite lookup_insert_eq.
    + rewrite lookup_insert_ne by done.
      destruct (decide (person ∈ persons)) as [Hin|Hnin].
      * rewrite decide_True; [done | by apply list_elem_of_further].
      * rewrite decide_False; [done|].
        intros [?|?]%elem_of_cons; done.
Qed.

Lemma personSkillMap_from persons skills :
  forall (m : gmap string (list string)) person,
    (forall skill, skill ∈ skills -> NoDup (persons skill)) ->
    foldl (fun m skill => foldl (Reference.appendSkill skill) m (persons skill))
          m skills !! person =
    match filter (fun skill => person ∈ persons skill) skills with
    | [] => m !! person
    | held => Some (default [] (m !! person) ++ held)
    end.
Proof.
  induction skills as [|s skills IH]; intros m person Hnd; simpl; [done|].
  rewrite IH by (intros; apply Hnd; by apply list_elem_of_further).
  rewrite appendAll_lookup by (apply Hnd; apply list_elem_of_here).
  rewrite filter_cons.
  destruct (decide (person ∈ persons s)) as [Hin|Hnin]; [|done].
  destruct (filter _ skills) as [|s' held]; simpl; [done|].
  by rewrite <- app_assoc.
Qed.

(** When no answer lists a person twice, the reference maps each person
    to the relevant skills they hold, in order, and has no entry for a
    person who holds none. *)
Lemma personSkillMap_lookup persons skills person :
  (forall skill, skill ∈ skills -> NoDup (persons skill)) ->
  Reference.personSkillMap persons skills !! person =
  match filter (fun skill => person ∈ persons skill) skills with
  | [] => None
  | held => Some held
  end.
Proof.
  intros Hnd. unfold Reference.personSkillMap.
  rewrite personSkillMap_from by done. rewrite lookup_empty.
  by destruct (filter _ skills).
Qed.

Import Scenario.

(** *** Claims about [getPersonList] *)

(** C10: called with the empty sequence of relevant skills,
    [getPersonList] returns the empty map, leaves the world as it is and
    makes no external call (no person query reaches the store); it only
    prints its console line. *)
Theorem getPersonList_no_skills env w :
  getPersonList [] env w =
    (Returned [], w,
     [Console LLog
        (Text "Getting all persons having the necessary skills...")])
  /\ calls (getPersonList [] env w).2 = []
  /\ represents [] (Reference.personSkillMap
                      (Store.listPersonsWithSkill (graph w)) []).
Proof.
  split; [reflexivity|]. split; [reflexivity|]. apply represents_empty.
Qed.

(** C3, as stated, fails: with the relevant skills [Java; Java] and a
    store in which Ada Lovelace holds Java, her entry is [Java; Java]. *)
Lemma getPersonList_repeated_skill_counterexample :
  ~ (forall skills env w c w' t person held,
        getPersonList skills env w = (Returned c, w', t) ->
        Js.getOwn c person = Some held ->
        NoDup held).
Proof.
  intros H.
  assert (Hdup : NoDup ["Java"; "Java"]).
  { eapply (H ["Java"; "Java"] (answering None Rejects Rejects)
              (connected adaGraph) _ _ _ "Ada Lovelace").
    - vm_compute. reflexivity.
    - vm_compute. reflexivity. }
  apply NoDup_cons in Hdup as [Hnot _]. apply Hnot, list_elem_of_here.
Qed.

(** C3, amended: when the relevant-skill sequence names no skill twice
    and no answer of the store lists a person twice, no entry of the map
    built by [getPersonList] contains a skill more than once. *)
Theorem getPersonList_entries_distinct skills env w c w' t person held :
  NoDup skills ->
  (forall skill, skill ∈ skills ->
                 NoDup (Store.listPersonsWithSkill (graph w) skill)) ->
  getPersonList skills env w = (Returned c, w', t) ->
  Js.getOwn c person = Some held ->
  NoDup held.
Proof.
  intros Hskills Hrows Hrun Hheld.
  apply getPersonList_refines in Hrun as [Hc _].
  rewrite (Hc person), personSkillMap_lookup in Hheld by done.
  pose proof (NoDup_filter
                (fun skill => person ∈ Store.listPersonsWithSkill (graph w) skill)
                skills Hskills) as Hnd.
  destruct (filter _ skills); [discriminate|].
  by injection Hheld as <-.
Qed.

Lemma getPersonList_entries_distinct_witness :
  Js.getOwn
    (match (getPersonList ["JavaScript"; "C#"]
              (answering None Rejects Rejects) (connected liusGraph)).1.1
     with Returned c => c | _ => [] end)
    "Lius Hohmann" = Some ["JavaScript"; "C#"]
  /\ NoDup ["JavaScript"; "C#"].
Proof.
  split; [reflexivity|].
  apply (getPersonList_entries_distinct
           ["JavaScript"; "C#"] (answering None Rejects Rejects)
           (connected liusGraph)
           [("Lius Hohmann", ["JavaScript"; "C#"])]
           (mkWorld true liusGraph 2)
           [Console LLog
              (Text "Getting all persons having the necessary skills...");
            Query (Store.MatchPersonsWithSkill "JavaScript") true;
            Query (Store.MatchPersonsWithSkill "C#") true]
           "Lius Hohmann").
  - apply NoDup_cons. split; [|apply NoDup_singleton].
    intros Hin. apply list_elem_of_singleton in Hin. discriminate.
  - intros skill Hin. apply elem_of_cons in Hin as [->|Hin].
    + vm_compute. apply NoDup_singleton.
    + apply list_elem_of_singleton in Hin as ->.
      vm_compute. apply NoDup_singleton.
  - vm_compute. reflexivity.
  - vm_compute. reflexivity.
Defined.

(** C4, at a failing input: the relevant skills [Rust] and a store in
    which the person named constructor holds Rust.  The reference map has
    the entry constructor -> [Rust]; [getPersonList] throws a TypeError
    after its query and returns no map. *)
Theorem getPersonList_inherited_name_throws :
  Store.listPersonsWithSkill constructorGraph "Rust" = ["constructor"]
  /\ Reference.personSkillMap
       (Store.listPersonsWithSkill constructorGraph) ["Rust"]
     !! "constructor" = Some ["Rust"]
  /\ getPersonList ["Rust"] (answering None Rejects Rejects)
       (connected constructorGraph) =
     (Thrown TypeError,
      mkWorld true constructorGraph 1,
      [Console LLog
         (Text "Getting all persons having the necessary skills...");
       Query (Store.MatchPersonsWithSkill "Rust") true]).
Proof.
  split; [reflexivity|]. split; [|reflexivity].
  rewrite personSkillMap_lookup.
  - reflexivity.
  - intros skill Hin. apply list_elem_of_singleton in Hin as ->.
    vm_compute. apply NoDup_singleton.
Qed.

(** *** The system prompts *)

Lemma extractSystemContent_nonempty person known :
  known <> [] ->
  extractSystemContent person known =
  "Extract the skills (preferably in one word) of the person called "
    +:+ person
    +:+ ". The following skills already exist and can be used, but if the person has skills not in this list, create a new one: "
    +:+ Js.join ", " known.
Proof. destruct known; [done | reflexivity]. Qed.

(** C2, as stated, fails: the known-skill list that holds the empty name
    alone is not empty, and [findNecessarySkills] builds for it the very
    prompt it builds for the empty list. *)
Lemma necessarySystemContent_counterexample :
  ~ (forall known : list string,
        known <> [] ->
        necessarySystemContent [] <> necessarySystemContent known).
Proof.
  intros H. apply (H [EmptyString]); [discriminate | reflexivity].
Qed.

(** C2, amended: the system prompt of step 2 is the fixed instruction
    followed by the known skills joined with a comma and a space, without
    any branch, and this is the prompt the completion call carries.  For
    the empty list nothing follows the instruction, and the prompt of a
    list equals it exactly when the list is empty or holds the empty name
    alone.  The branch between the empty and the non-empty list is in
    [extractSkills]: there the prompt of a list equals the prompt of the
    empty list only for the empty list. *)
Theorem necessarySystemContent_empty_list known person text env w :
  necessarySystemContent [] =
    "Find the skills out of the following list that could help the most with the problem the user describes. "
  /\ (necessarySystemContent known = necessarySystemContent []
      <-> known = [] \/ known = [EmptyString])
  /\ (extractSystemContent person known = extractSystemContent person []
      <-> known = [])
  /\ necessaryRequest text known =
     mkChatRequest "gpt-4o"
       [mkMessage System (necessarySystemContent known); mkMessage User text]
  /\ calls (findNecessarySkills text known env w).2 =
     [Completion UsefulSkillsFormat (necessaryRequest text known)
        (match completion env (clock w) UsefulSkillsFormat
                 (necessaryRequest text known)
         with Rejects => false | Resolves _ => true end)].
Proof.
  split; [reflexivity|]. split; [|split; [|split; [reflexivity|]]].
  - rewrite <- (join_empty ", " known) by discriminate.
    unfold necessarySystemContent. split.
    + intros H. apply append_inj_l in H. exact H.
    + intros ->. reflexivity.
  - split; [|intros ->; reflexivity].
    destruct (decide (known = [])) as [|Hne]; [done|].
    rewrite extractSystemContent_nonempty by done.
    unfold extractSystemContent. simpl length. simpl negb. cbv iota.
    intros H. do 2 apply append_inj_l in H. discriminate H.
  - unfold findNecessarySkills.
    rewrite run_bind, run_console, run_bind. unfold parse.
    destruct (completion env _ _ _); reflexivity.
Qed.

Lemma necessarySystemContent_empty_list_witness :
  necessarySystemContent [EmptyString] = necessarySystemContent []
  /\ extractSystemContent "Lius Hohmann" [EmptyString]
     <> extractSystemContent "Lius Hohmann" [].
Proof.
  destruct (necessarySystemContent_empty_list
              [EmptyString] "Lius Hohmann" "I need a Java expert."
              (answering None Rejects Rejects) (connected unnamedSkillGraph))
    as (_ & Hnecessary & Hextract & _ & _).
  split.
  - apply Hnecessary. right. reflexivity.
  - intros Heq. apply Hextract in Heq. discriminate Heq.
Defined.

(** *** Running the steps of the workflow *)

Lemma getPersonList_no_skills_run env w :
  getPersonList [] env w =
  (Returned [], w,
   [Console LLog (Text "Getting all persons having the necessary skills...")]).
Proof. reflexivity. Qed.

Lemma push_names (records : list Store.Node) :
  forall acc,
    foldl (fun skillList record => skillList ++ [Store.nodeName record])
          acc records
    = acc ++ (Store.nodeName <$> records).
Proof.
  induction records as [|r records IH]; intros acc; simpl.
  - by rewrite app_nil_r.
  - rewrite IH. by rewrite <- app_assoc.
Qed.

Lemma run_getAllSkills env w :
  getAllSkills env w =
  if driver w then
    if storeUp env (clock w) then
      (Returned (Store.listAllSkills (graph w)),
       mkWorld true (graph w) (S (clock w)),
       [Console LDebug (Text "Getting all skills...");
        Query Store.MatchAllSkills true])
    else
      (Thrown StoreError, mkWorld true (graph w) (S (clock w)),
       [Console LDebug (Text "Getting all skills...");
        Query Store.MatchAllSkills false])
  else (Thrown TypeError, w, [Console LDebug (Text "Getting all skills...")]).
Proof.
  unfold getAllSkills. rewrite run_bind, run_console, run_bind.
  unfold executeQuery. destruct (driver w); [|reflexivity].
  destruct (storeUp env (clock w)); [|reflexivity].
  simpl. rewrite push_names. reflexivity.
Qed.

Lemma run_findNecessarySkills text known env w :
  findNecessarySkills text known env w =
  match completion env (clock w) UsefulSkillsFormat
          (necessaryRequest text known) with
  | Rejects =>
      (Thrown ClientError, mkWorld (driver w) (graph w) (S (clock w)),
       [Console LDebug (Text "Finding necessary skills...");
        Completion UsefulSkillsFormat (necessaryRequest text known) false])
  | Resolves parsed =>
      (Returned (skills <$> parsed),
       mkWorld (driver w) (graph w) (S (clock w)),
       [Console LDebug (Text "Finding necessary skills...");
        Completion UsefulSkillsFormat (necessaryRequest text known) true])
  end.
Proof.
  unfold findNecessarySkills. rewrite run_bind, run_console, run_bind.
  unfold parse. destruct (completion env _ _ _); reflexivity.
Qed.

Lemma run_findMatchingPerson c problem env w :
  findMatchingPerson c problem env w =
  match completion env (clock w) BestMatchingPersonFormat
          (matchingRequest c problem) with
  | Rejects =>
      (Thrown ClientError, mkWorld (driver w) (graph w) (S (clock w)),
       [Console LLog (Text "Finding matching person...");
        Completion BestMatchingPersonFormat (matchingRequest c problem) false])
  | Resolves best =>
      (Returned best, mkWorld (driver w) (graph w) (S (clock w)),
       [Console LLog (Text "Finding matching person...");
        Completion BestMatchingPersonFormat (matchingRequest c problem) true])
  end.
Proof.
  unfold findMatchingPerson. rewrite run_bind, run_console.
  unfold parse. destruct (completion env _ _ _); reflexivity.
Qed.

(** The loop over [extractedSkills], whose body is commented out. *)
Lemma run_idle_loop {A} (l : list A) env w :
  forOf l (fun (_ : unit) (_ : A) => mret ()) () env w = (Returned (), w, []).
Proof.
  induction l as [|x l IH]; [reflexivity|].
  cbn [forOf]. rewrite run_bind, run_ret. by rewrite IH.
Qed.

(** The workflow up to the branch on [usefulSkills], when the store
    answers the skill query. *)
Lemma run_workflow problem env w :
  driver w = true ->
  storeUp env (clock w) = true ->
  workflow problem env w =
  let known := Store.listAllSkills (graph w) in
  let w2 := mkWorld true (graph w) (S (S (clock w))) in
  let steps12 ok :=
    [Console LDebug (Text "Getting all skills...");
     Query Store.MatchAllSkills true;
     Console LDebug (Text "Finding necessary skills...");
     Completion UsefulSkillsFormat (necessaryRequest problem known) ok] in
  match completion env (S (clock w)) UsefulSkillsFormat
          (necessaryRequest problem known) with
  | Rejects => (Thrown ClientError, w2, steps12 false)
  | Resolves None => (Returned (), w2, steps12 true)
  | Resolves (Some useful) =>
      let '(o, w', t) :=
        (personContainer ← getPersonList (skills useful);
         matchingPerson ← findMatchingPerson personContainer problem;
         console LLog (Match matchingPerson)) env w2 in
      (o, w', steps12 true ++ Console LLog (SkillList (skills useful)) :: t)
  end.
Proof.
  intros Hd Hup. unfold workflow.
  rewrite run_bind, run_getAllSkills, Hd, Hup.
  rewrite (run_bind (forOf _ _ _)), run_idle_loop.
  rewrite run_bind, run_findNecessarySkills. cbn [clock driver graph].
  destruct (completion env _ _ _) as [|[useful|]]; try reflexivity.
  cbn [fmap option_fmap option_map]. rewrite run_bind, run_console.
  match goal with
  | |- context [mbind ?f ?m env ?w0] =>
      destruct (mbind f m env w0) as [[o w'] t]
  end.
  reflexivity.
Qed.

(** *** Claims about the workflow *)

(** C1, as stated, fails: when step 2 yields the empty sequence, [main]
    still calls [getPersonList] and [findMatchingPerson] and prints the
    match the model returns. *)
Lemma workflow_empty_skills_counterexample :
  ~ (forall problem env w,
        driver w = true ->
        storeUp env (clock w) = true ->
        completion env (S (clock w)) UsefulSkillsFormat
          (necessaryRequest problem (Store.listAllSkills (graph w)))
        = Resolves (Some (mkUsefulSkills [])) ->
        let t := (workflow problem env w).2 in
        existsb isMatchCall t = false
        /\ existsb isMatchLog t = false
        /\ Console LLog
             (Text "Getting all persons having the necessary skills...") ∉ t).
Proof.
  intros H.
  destruct (H "I need a Java expert."
              (answering None (Resolves (Some (mkUsefulSkills [])))
                         (Resolves (Some adaMatch)))
              (connected adaGraph) eq_refl eq_refl eq_refl)
    as (Hcall & _ & _).
  vm_compute in Hcall. discriminate Hcall.
Qed.

(** C1, amended: the workflow stops after step 2 only when step 2 yields
    no sequence at all ([undefined]); then neither [getPersonList] nor
    [findMatchingPerson] runs and nothing more is printed.  When step 2
    yields the empty sequence, [getPersonList] runs without sending any
    query, [findMatchingPerson] is called with the empty map, serialized
    as an empty object, and what it returns is printed as the match. *)
Theorem workflow_short_circuit problem env w :
  driver w = true ->
  storeUp env (clock w) = true ->
  let known := Store.listAllSkills (graph w) in
  let steps12 :=
    [Console LDebug (Text "Getting all skills...");
     Query Store.MatchAllSkills true;
     Console LDebug (Text "Finding necessary skills...");
     Completion UsefulSkillsFormat (necessaryRequest problem known) true] in
  let steps34 ok :=
    [Console LLog (SkillList []);
     Console LLog (Text "Getting all persons having the necessary skills...");
     Console LLog (Text "Finding matching person...");
     Completion BestMatchingPersonFormat (matchingRequest [] problem) ok] in
  match completion env (S (clock w)) UsefulSkillsFormat
          (necessaryRequest problem known) with
  | Resolves None =>
      workflow problem env w =
      (Returned (), mkWorld true (graph w) (S (S (clock w))), steps12)
  | Resolves (Some {| skills := [] |}) =>
      Js.stringifyObject [] = "{}"
      /\ workflow problem env w =
         match completion env (S (S (clock w))) BestMatchingPersonFormat
                 (matchingRequest [] problem) with
         | Rejects =>
             (Thrown ClientError,
              mkWorld true (graph w) (S (S (S (clock w)))),
              steps12 ++ steps34 false)
         | Resolves best =>
             (Returned (),
              mkWorld true (graph w) (S (S (S (clock w)))),
              steps12 ++ steps34 true ++ [Console LLog (Match best)])
         end
  | _ => True
  end.
Proof.
  intros Hd Hup. cbv zeta. rewrite run_workflow by done. cbv zeta.
  destruct (completion env (S (clock w)) _ _) as [|[[[|s useful]]|]];
    [exact I | | exact I | reflexivity].
  split; [reflexivity|].
  cbn [skills]. rewrite run_bind.
  rewrite getPersonList_no_skills_run.
  rewrite run_bind, run_findMatchingPerson. cbn [clock driver graph].
  destruct (completion env (S (S (clock w))) _ _); reflexivity.
Qed.

Lemma workflow_short_circuit_witness :
  let run :=
    workflow "I need a Java expert."
      (answering None (Resolves (Some (mkUsefulSkills [])))
                 (Resolves (Some adaMatch)))
      (connected adaGraph) in
  run.1.1 = Returned ()
  /\ clock run.1.2 = 3%nat
  /\ existsb isPersonQuery run.2 = false
  /\ existsb isMatchCall run.2 = true
  /\ last run.2 = Some (Console LLog (Match (Some adaMatch))).
Proof.
  cbv zeta.
  destruct (workflow_short_circuit "I need a Java expert."
              (answering None (Resolves (Some (mkUsefulSkills [])))
                         (Resolves (Some adaMatch)))
              (connected adaGraph) eq_refl eq_refl) as [_ Hrun].
  rewrite Hrun. repeat split; reflexivity.
Defined.

(** C7, as stated, fails: when the answer of the model cannot be parsed,
    the completion call rejects, and [findNecessarySkills] throws that
    error instead of returning an absent value. *)
Lemma extraction_rejects_counterexample :
  ~ (forall text known env w,
        (forall parsed,
            completion env (clock w) UsefulSkillsFormat
              (necessaryRequest text known)
            <> Resolves (Some parsed)) ->
        (findNecessarySkills text known env w).1.1 = Returned None).
Proof.
  intros H.
  specialize (H "I need a Java expert." ["Java"; "JavaScript"; "Rust"]
                (answering None Rejects Rejects) (connected adaGraph)).
  assert (Hthrown : Thrown ClientError = Returned (None : option (list string))).
  { apply H. intros parsed. discriminate. }
  discriminate Hthrown.
Qed.

(** C7, amended: when the completion call resolves without a parsed
    object ([message.parsed] is [null], as on a refusal),
    [findNecessarySkills] returns [undefined] and does not throw; inside
    the workflow, where it runs on the skills the store lists, the run
    then ends normally with nothing but the skill query and this one
    completion call behind it.  When the completion call rejects, as it
    does on an answer that cannot be parsed, [findNecessarySkills]
    throws the error of the client, and the workflow ends with that
    error right after the call: no later step runs. *)
Theorem extraction_without_result text known env w :
  let request := necessaryRequest text known in
  let steps ok :=
    [Console LDebug (Text "Getting all skills...");
     Query Store.MatchAllSkills true;
     Console LDebug (Text "Finding necessary skills...");
     Completion UsefulSkillsFormat request ok] in
  match completion env (clock w) UsefulSkillsFormat request with
  | Resolves None =>
      findNecessarySkills text known env w =
        (Returned None,
         mkWorld (driver w) (graph w) (S (clock w)),
         [Console LDebug (Text "Finding necessary skills...");
          Completion UsefulSkillsFormat request true])
      /\ forall w0,
           driver w0 = true ->
           storeUp env (clock w0) = true ->
           clock w = S (clock w0) ->
           known = Store.listAllSkills (graph w0) ->
           workflow text env w0 =
             (Returned (), mkWorld true (graph w0) (S (S (clock w0))),
              steps true)
  | Rejects =>
      findNecessarySkills text known env w =
        (Thrown ClientError,
         mkWorld (driver w) (graph w) (S (clock w)),
         [Console LDebug (Text "Finding necessary skills...");
          Completion UsefulSkillsFormat request false])
      /\ forall w0,
           driver w0 = true ->
           storeUp env (clock w0) = true ->
           clock w = S (clock w0) ->
           known = Store.listAllSkills (graph w0) ->
           workflow text env w0 =
             (Thrown ClientError, mkWorld true (graph w0) (S (S (clock w0))),
              steps false)
  | Resolves (Some _) => True
  end.
Proof.
  cbv zeta.
  destruct (completion env (clock w) UsefulSkillsFormat
              (necessaryRequest text known)) as [|[useful|]] eqn:Hreply;
    [|exact I|].
  - split; [by rewrite run_findNecessarySkills, Hreply|].
    intros w0 Hd Hup Hclock ->. rewrite run_workflow by done. cbv zeta.
    rewrite <- Hclock, Hreply. reflexivity.
  - split; [by rewrite run_findNecessarySkills, Hreply|].
    intros w0 Hd Hup Hclock ->. rewrite run_workflow by done. cbv zeta.
    rewrite <- Hclock, Hreply. reflexivity.
Qed.

Lemma extraction_without_result_witness :
  let request :=
    necessaryRequest "I need a Java expert." ["Java"; "JavaScript"; "Rust"] in
  let steps ok :=
    [Console LDebug (Text "Getting all skills...");
     Query Store.MatchAllSkills true;
     Console LDebug (Text "Finding necessary skills...");
     Completion UsefulSkillsFormat request ok] in
  workflow "I need a Java expert."
    (answering None (Resolves None) Rejects) (connected adaGraph)
  = (Returned (), mkWorld true adaGraph 2, steps true)
  /\ workflow "I need a Java expert."
       (answering None Rejects Rejects) (connected adaGraph)
     = (Thrown ClientError, mkWorld true adaGraph 2, steps false).
Proof.
  cbv zeta. split.
  - destruct (extraction_without_result "I need a Java expert."
                ["Java"; "JavaScript"; "Rust"]
                (answering None (Resolves None) Rejects)
                (mkWorld true adaGraph 1)) as [_ Hflow].
    apply (Hflow (connected adaGraph)); reflexivity.
  - destruct (extraction_without_result "I need a Java expert."
                ["Java"; "JavaScript"; "Rust"]
                (answering None Rejects Rejects)
                (mkWorld true adaGraph 1)) as [_ Hflow].
    apply (Hflow (connected adaGraph)); reflexivity.
Defined.

(** C5: known skills Java, JavaScript and Rust, problem "I need a Java
    expert.".  The completion call of step 2 is sent with the model
    gpt-4o, a system prompt that ends with the three names and the
    problem text as user message.  When it yields [Java] and the store
    answers the query for Java with Ada Lovelace, [getPersonList] returns
    the map with the single entry Ada Lovelace -> [Java], and the
    completion call of [findMatchingPerson] is sent with the instruction
    to pick the best person as system prompt and a user message that
    holds the problem text and this map as JSON; what it resolves to is
    printed. *)
Theorem java_expert_scenario env w :
  let problem := "I need a Java expert." in
  let known := ["Java"; "JavaScript"; "Rust"] in
  let quote := Js.str Js.dquote in
  let personSkillMap := [("Ada Lovelace", ["Java"])] in
  let serialized :=
    "{" +:+ quote +:+ "Ada Lovelace" +:+ quote +:+ ":[" +:+ quote +:+ "Java"
      +:+ quote +:+ "]}" in
  let skillsCall :=
    mkChatRequest "gpt-4o"
      [mkMessage System
         "Find the skills out of the following list that could help the most with the problem the user describes. Java, JavaScript, Rust";
       mkMessage User "I need a Java expert."] in
  let matchCall :=
    mkChatRequest "gpt-4o"
      [mkMessage System
         "Find the person with the best matching skillset to solve the problem and justify your decision shortly.";
       mkMessage User
         ("The problem is the following: 'I need a Java expert.' and the persons with the skills are the following: "
            +:+ serialized +:+ " ")] in
  let w2 := mkWorld true (graph w) (S (S (clock w))) in
  let w3 := mkWorld true (graph w) (S (S (S (clock w)))) in
  let w4 := mkWorld true (graph w) (S (S (S (S (clock w))))) in
  let steps ok :=
    [Console LDebug (Text "Getting all skills...");
     Query Store.MatchAllSkills true;
     Console LDebug (Text "Finding necessary skills...");
     Completion UsefulSkillsFormat skillsCall true;
     Console LLog (SkillList ["Java"]);
     Console LLog (Text "Getting all persons having the necessary skills...");
     Query (Store.MatchPersonsWithSkill "Java") true;
     Console LLog (Text "Finding matching person...");
     Completion BestMatchingPersonFormat matchCall ok] in
  driver w = true ->
  storeUp env (clock w) = true ->
  Store.listAllSkills (graph w) = known ->
  completion env (S (clock w)) UsefulSkillsFormat skillsCall
  = Resolves (Some (mkUsefulSkills ["Java"])) ->
  storeUp env (S (S (clock w))) = true ->
  Store.listPersonsWithSkill (graph w) "Java" = ["Ada Lovelace"] ->
  necessaryRequest problem known = skillsCall
  /\ getPersonList ["Java"] env w2 =
     (Returned personSkillMap, w3,
      [Console LLog
         (Text "Getting all persons having the necessary skills...");
       Query (Store.MatchPersonsWithSkill "Java") true])
  /\ Js.stringifyObject personSkillMap = serialized
  /\ matchingRequest personSkillMap problem = matchCall
  /\ workflow problem env w =
     match completion env (S (S (S (clock w)))) BestMatchingPersonFormat
             matchCall with
     | Rejects => (Thrown ClientError, w4, steps false)
     | Resolves best =>
         (Returned (), w4, steps true ++ [Console LLog (Match best)])
     end.
Proof.
  cbv zeta. intros Hd Hup Hknown Huseful Hup2 Hada.
  assert (Hlist :
    getPersonList ["Java"] env (mkWorld true (graph w) (S (S (clock w)))) =
    (Returned [("Ada Lovelace", ["Java"])],
     mkWorld true (graph w) (S (S (S (clock w)))),
     [Console LLog (Text "Getting all persons having the necessary skills...");
      Query (Store.MatchPersonsWithSkill "Java") true])).
  { unfold getPersonList. rewrite run_bind, run_console. cbn [forOf].
    rewrite run_bind. unfold recordHolders.
    rewrite run_bind, run_personQuery. cbn [driver clock graph].
    rewrite Hup2. unfold Store.listPersonsWithSkill in Hada.
    destruct (Store.personsWithSkill "Java" (graph w)) as [|r [|r' rows]];
      try discriminate Hada.
    injection Hada as Hname. cbn [forOf].
    rewrite run_bind, recordPerson_run, Hname. reflexivity. }
  split; [reflexivity|]. split; [exact Hlist|]. split; [reflexivity|].
  split; [reflexivity|].
  change (mkChatRequest _ _)
    with (necessaryRequest "I need a Java expert."
            ["Java"; "JavaScript"; "Rust"]) in Huseful.
  rewrite run_workflow by done. cbv zeta. rewrite Hknown, Huseful.
  cbn [skills]. rewrite run_bind, Hlist.
  rewrite run_bind, run_findMatchingPerson. cbn [driver clock graph].
  change (matchingRequest [("Ada Lovelace", ["Java"])]
            "I need a Java expert.")
    with (mkChatRequest "gpt-4o"
            [mkMessage System
               "Find the person with the best matching skillset to solve the problem and justify your decision shortly.";
             mkMessage User
               ("The problem is the following: 'I need a Java expert.' and the persons with the skills are the following: "
                  +:+ ("{" +:+ Js.str Js.dquote +:+ "Ada Lovelace"
                         +:+ Js.str Js.dquote +:+ ":[" +:+ Js.str Js.dquote
                         +:+ "Java" +:+ Js.str Js.dquote +:+ "]}")
                  +:+ " ")]).
  destruct (completion env (S (S (S (clock w)))) _ _); reflexivity.
Qed.

Lemma java_expert_scenario_witness :
  let quote := Js.str Js.dquote in
  let skillsCall :=
    mkChatRequest "gpt-4o"
      [mkMessage System
         "Find the skills out of the following list that could help the most with the problem the user describes. Java, JavaScript, Rust";
       mkMessage User "I need a Java expert."] in
  let matchCall :=
    mkChatRequest "gpt-4o"
      [mkMessage System
         "Find the person with the best matching skillset to solve the problem and justify your decision shortly.";
       mkMessage User
         ("The problem is the following: 'I need a Java expert.' and the persons with the skills are the following: "
            +:+ ("{" +:+ quote +:+ "Ada Lovelace" +:+ quote +:+ ":[" +:+ quote
                   +:+ "Java" +:+ quote +:+ "]}")
            +:+ " ")] in
  workflow "I need a Java expert."
    (answering None (Resolves (Some (mkUsefulSkills ["Java"])))
               (Resolves (Some adaMatch)))
    (connected adaGraph) =
  (Returned (),
   mkWorld true adaGraph 4,
   [Console LDebug (Text "Getting all skills...");
    Query Store.MatchAllSkills true;
    Console LDebug (Text "Finding necessary skills...");
    Completion UsefulSkillsFormat skillsCall true;
    Console LLog (SkillList ["Java"]);
    Console LLog (Text "Getting all persons having the necessary skills...");
    Query (Store.MatchPersonsWithSkill "Java") true;
    Console LLog (Text "Finding matching person...");
    Completion BestMatchingPersonFormat matchCall true;
    Console LLog (Match (Some adaMatch))]).
Proof.
  cbv zeta.
  destruct (java_expert_scenario
              (answering None (Resolves (Some (mkUsefulSkills ["Java"])))
                         (Resolves (Some adaMatch)))
              (connected adaGraph)
              eq_refl eq_refl eq_refl eq_refl eq_refl eq_refl)
    as (_ & _ & _ & _ & Hrun).
  exact Hrun.
Defined.

(** *** The merge statement *)

Lemma mergeRel_nodes g r : Store.nodes (Store.mergeRel g r) = Store.nodes g.
Proof. unfold Store.mergeRel. by destruct (bool_decide _). Qed.

Lemma mergeRels_nodes pairs :
  forall g, Store.nodes (foldl Store.mergeRel g pairs) = Store.nodes g.
Proof.
  induction pairs as [|r pairs IH]; intros g; simpl; [done|].
  by rewrite IH, mergeRel_nodes.
Qed.

(** Merging relationships only appends, and appends no relationship that
    exists already, nor one twice. *)
Lemma mergeRels_rels pairs :
  forall g, exists added,
    Store.rels (foldl Store.mergeRel g pairs) = Store.rels g ++ added
    /\ NoDup added
    /\ (forall r, r ∈ added -> r ∉ Store.rels g)
    /\ (forall r, r ∈ pairs -> r ∈ Store.rels g ++ added).
Proof.
  induction pairs as [|r pairs IH]; intros g; simpl.
  - exists []. rewrite app_nil_r. repeat split.
    + apply NoDup_nil_2.
    + intros r Hr. by apply not_elem_of_nil in Hr.
    + intros r Hr. by apply not_elem_of_nil in Hr.
  - destruct (IH (Store.mergeRel g r)) as (added & Hrels & Hnd & Hnew & Hall).
    unfold Store.mergeRel in *.
    destruct (bool_decide_reflect (r ∈ Store.rels g)) as [Hin|Hnin].
    + exists added. repeat split; try done.
      intros r' [->|Hr']%elem_of_cons; [|by apply Hall].
      apply elem_of_app. by left.
    + simpl in *. exists (r :: added). rewrite Hrels, <- app_assoc.
      repeat split.
      * apply NoDup_cons. split; [|done].
        intros Hr. apply (Hnew r Hr), elem_of_app. right. apply list_elem_of_here.
      * intros r' [->|Hr']%elem_of_cons; [done|].
        intros Hg. apply (Hnew r' Hr'), elem_of_app. by left.
      * intros r' [->|Hr']%elem_of_cons.
        -- apply elem_of_app. right. apply list_elem_of_here.
        -- specialize (Hall r' Hr'). by rewrite <- app_assoc in Hall.
Qed.

Lemma mergeRels_present pairs :
  forall g, (forall r, r ∈ pairs -> r ∈ Store.rels g) ->
            foldl Store.mergeRel g pairs = g.
Proof.
  induction pairs as [|r pairs IH]; intros g Hall; simpl; [done|].
  assert (Hr : Store.mergeRel g r = g).
  { unfold Store.mergeRel. rewrite bool_decide_eq_true_2; [done|].
    apply Hall, list_elem_of_here. }
  rewrite Hr. apply IH. intros r' Hr'. by apply Hall, list_elem_of_further.
Qed.

Lemma labelled_nodes l name g g' :
  Store.nodes g = Store.nodes g' ->
  Store.labelled l name g = Store.labelled l name g'.
Proof. unfold Store.labelled. by intros ->. Qed.

(** What [MERGE] of a node binds exists afterwards, and binding it again
    changes nothing. *)
Lemma mergeNode_spec l name g :
  let '(g1, found) := Store.mergeNode l name g in
  found <> []
  /\ Store.labelled l name g1 = found
  /\ Store.rels g1 = Store.rels g
  /\ Store.nodes g1 =
     Store.nodes g ++
       match Store.labelled l name g with
       | [] => [Store.mkNode (Store.freshId g) l name]
       | _ => []
       end
  /\ (forall l' name', l' <> l ->
        Store.labelled l' name' g1 = Store.labelled l' name' g).
Proof.
  unfold Store.mergeNode.
  destruct (Store.labelled l name g) as [|n found] eqn:Hfound.
  - repeat split; try done.
    + unfold Store.labelled in *. simpl. rewrite filter_app, Hfound. simpl.
      rewrite filter_cons, decide_True by done. reflexivity.
    + intros l' name' Hl. unfold Store.labelled. simpl.
      rewrite filter_app, filter_cons, decide_False;
        [|simpl; intros [? _]; congruence].
      rewrite filter_nil. by rewrite app_nil_r.
  - repeat split; try done. by rewrite app_nil_r.
Qed.

Lemma mergeNode_again l name g g' :
  Store.labelled l name g' = (Store.mergeNode l name g).2 ->
  Store.mergeNode l name g' = (g', (Store.mergeNode l name g).2).
Proof.
  pose proof (mergeNode_spec l name g) as Hspec.
  destruct (Store.mergeNode l name g) as [g1 found].
  destruct Hspec as (Hne & _). simpl. intros Hg'.
  unfold Store.mergeNode. rewrite Hg'. by destruct found.
Qed.

Lemma mergePersonSkill_idempotent person skill g :
  Store.mergePersonSkill person skill (Store.mergePersonSkill person skill g)
  = Store.mergePersonSkill person skill g.
Proof.
  unfold Store.mergePersonSkill at 2 3.
  pose proof (mergeNode_spec Store.Person person g) as H1.
  pose proof (mergeNode_again Store.Person person g) as A1.
  destruct (Store.mergeNode Store.Person person g) as [g1 persons].
  destruct H1 as (_ & Hp1 & _ & _ & _).
  pose proof (mergeNode_spec Store.Skill skill g1) as H2.
  pose proof (mergeNode_again Store.Skill skill g1) as A2.
  destruct (Store.mergeNode Store.Skill skill g1) as [g2 skills].
  destruct H2 as (_ & Hs2 & _ & _ & Hother).
  simpl in A1, A2.
  set (pairs := p ← persons; s ← skills; [(Store.nodeId p, Store.nodeId s)]).
  set (g3 := foldl Store.mergeRel g2 pairs).
  assert (Hn : Store.nodes g3 = Store.nodes g2) by apply mergeRels_nodes.
  unfold Store.mergePersonSkill.
  rewrite (A1 g3), (A2 g3).
  - fold pairs. apply mergeRels_present. intros r Hr.
    destruct (mergeRels_rels pairs g2) as (added & Hrels & _ & _ & Hall).
    fold g3 in Hrels. rewrite Hrels. by apply Hall.
  - by rewrite (labelled_nodes _ _ _ _ Hn).
  - rewrite (labelled_nodes _ _ _ _ Hn). by rewrite Hother.
Qed.

(** What the merge adds: at most one person node and one skill node, each
    only when no node of that label and name exists, and only
    relationships that did not exist; afterwards every person node and
    skill node of these names are connected. *)
Lemma mergePersonSkill_spec person skill g :
  let g' := Store.mergePersonSkill person skill g in
  exists skillId added,
    Store.nodes g' =
      Store.nodes g
        ++ match Store.labelled Store.Person person g with
           | [] => [Store.mkNode (Store.freshId g) Store.Person person]
           | _ => []
           end
        ++ match Store.labelled Store.Skill skill g with
           | [] => [Store.mkNode skillId Store.Skill skill]
           | _ => []
           end
    /\ Store.rels g' = Store.rels g ++ added
    /\ NoDup added
    /\ (forall r, r ∈ added -> r ∉ Store.rels g)
    /\ (forall p s,
          p ∈ Store.labelled Store.Person person g' ->
          s ∈ Store.labelled Store.Skill skill g' ->
          (Store.nodeId p, Store.nodeId s) ∈ Store.rels g').
Proof.
  cbv zeta. unfold Store.mergePersonSkill.
  pose proof (mergeNode_spec Store.Person person g) as H1.
  destruct (Store.mergeNode Store.Person person g) as [g1 persons].
  destruct H1 as (_ & Hp1 & Hr1 & Hn1 & _).
  pose proof (mergeNode_spec Store.Skill skill g1) as H2.
  destruct (Store.mergeNode Store.Skill skill g1) as [g2 skills].
  destruct H2 as (_ & Hs2 & Hr2 & Hn2 & Hother).
  pose proof (mergeNode_spec Store.Person person g) as H1'.
  set (pairs := p ← persons; s ← skills; [(Store.nodeId p, Store.nodeId s)]).
  destruct (mergeRels_rels pairs g2) as (added & Hrels & Hnd & Hnew & Hall).
  pose proof (mergeRels_nodes pairs g2) as Hn.
  exists (Store.freshId g1), added. repeat split.
  - rewrite Hn, Hn2, Hn1, <- app_assoc. do 2 f_equal.
    assert (Hsk : Store.labelled Store.Skill skill g1
                  = Store.labelled Store.Skill skill g).
    { clear -Hn1. unfold Store.labelled at 1. rewrite Hn1, filter_app.
      destruct (Store.labelled Store.Person person g).
      - rewrite filter_cons, decide_False
          by (simpl; intros [? _]; congruence).
        by rewrite filter_nil, app_nil_r.
      - by rewrite filter_nil, app_nil_r. }
    by rewrite Hsk.
  - by rewrite Hrels, Hr2, Hr1.
  - done.
  - intros r Hr. rewrite <- Hr1, <- Hr2. by apply Hnew.
  - intros p s Hp Hs. rewrite Hrels. apply Hall.
    rewrite (labelled_nodes _ _ _ _ Hn) in Hp.
    rewrite (labelled_nodes _ _ _ _ Hn) in Hs.
    rewrite (Hother Store.Person person) in Hp by done.
    rewrite Hp1 in Hp. rewrite Hs2 in Hs.
    apply list_elem_of_bind. exists p. split; [|done].
    apply list_elem_of_bind. exists s. split; [|done].
    apply list_elem_of_here.
Qed.

Lemma run_addSkillToPerson person skill env w :
  addSkillToPerson person skill env w =
  let printed :=
    [Console LDebug (Text "Adding skill to person...");
     Console LLog (Text ("Adding skill " +:+ skill))] in
  if driver w then
    if storeUp env (clock w) then
      (Returned (),
       mkWorld true (Store.mergePersonSkill person skill (graph w))
               (S (clock w)),
       printed ++ [Query (Store.MergePersonSkill person skill) true])
    else
      (Thrown StoreError, mkWorld true (graph w) (S (clock w)),
       printed ++ [Query (Store.MergePersonSkill person skill) false])
  else (Thrown TypeError, w, printed).
Proof.
  unfold addSkillToPerson.
  rewrite run_bind, run_console, run_bind, run_console, run_bind.
  unfold executeQuery. destruct (driver w); [|reflexivity].
  destruct (storeUp env (clock w)); reflexivity.
Qed.

(** C6: with the store answering, assigning a skill to a person twice in
    a row leaves the store as assigning it once does.  One assignment adds
    the person node only when no person of that name exists, the skill
    node only when no skill of that name exists, and only relationships
    that did not exist, none of them twice; so a store without duplicate
    relationships stays without, and afterwards each person node of the
    name is connected to each skill node of the name. *)
Theorem addSkillToPerson_idempotent person skill env w :
  driver w = true ->
  storeUp env (clock w) = true ->
  storeUp env (S (clock w)) = true ->
  let once := addSkillToPerson person skill env w in
  let twice :=
    (addSkillToPerson person skill;; addSkillToPerson person skill) env w in
  let g := graph w in
  let g' := graph once.1.2 in
  once.1.1 = Returned () /\ twice.1.1 = Returned ()
  /\ graph twice.1.2 = g'
  /\ (exists skillId added,
        Store.nodes g' =
          Store.nodes g
            ++ match Store.labelled Store.Person person g with
               | [] => [Store.mkNode (Store.freshId g) Store.Person person]
               | _ => []
               end
            ++ match Store.labelled Store.Skill skill g with
               | [] => [Store.mkNode skillId Store.Skill skill]
               | _ => []
               end
        /\ Store.rels g' = Store.rels g ++ added
        /\ NoDup added
        /\ (forall r, r ∈ added -> r ∉ Store.rels g))
  /\ (NoDup (Store.rels g) -> NoDup (Store.rels g'))
  /\ (forall p s,
        p ∈ Store.labelled Store.Person person g' ->
        s ∈ Store.labelled Store.Skill skill g' ->
        (Store.nodeId p, Store.nodeId s) ∈ Store.rels g').
Proof.
  intros Hd Hup Hup'. cbv zeta.
  rewrite run_bind, run_addSkillToPerson. cbv zeta.
  rewrite Hd, Hup. cbv beta iota.
  rewrite run_addSkillToPerson. cbv zeta.
  cbn [driver clock graph]. rewrite Hup'. cbn [driver clock graph fst snd].
  rewrite mergePersonSkill_idempotent.
  destruct (mergePersonSkill_spec person skill (graph w))
    as (skillId & added & Hnodes & Hrels & Hnd & Hnew & Hall).
  repeat split; try done.
  - by exists skillId, added.
  - intros Hg. rewrite Hrels. apply NoDup_app. repeat split; try done.
    intros r Hr Hadd. by apply (Hnew r).
Qed.

Lemma addSkillToPerson_idempotent_witness :
  let env := answering None Rejects Rejects in
  let w := connected adaGraph in
  graph ((addSkillToPerson "Lius Hohmann" "Java";;
          addSkillToPerson "Lius Hohmann" "Java") env w).1.2
  = graph (addSkillToPerson "Lius Hohmann" "Java" env w).1.2
  /\ NoDup (Store.rels (graph (addSkillToPerson "Lius Hohmann" "Java" env w).1.2)).
Proof.
  cbv zeta.
  destruct (addSkillToPerson_idempotent "Lius Hohmann" "Java"
              (answering None Rejects Rejects) (connected adaGraph)
              eq_refl eq_refl eq_refl)
    as (_ & _ & Hsame & _ & Hnodup & _).
  split; [exact Hsame|]. apply Hnodup. apply NoDup_singleton.
Defined.

(** *** Properties of all runs, by the structure of the script *)

Section Closure.

Context {A B : Type}.
Implicit Types (m : M A) (f : A -> M B) (P : Event -> bool).

Lemma emits_ret P (a : A) : emits P (mret a : M A).
Proof. intros env w. apply Forall_nil_2. Qed.

Lemma emits_throw P e : emits P (throw e : M A).
Proof. intros env w. apply Forall_nil_2. Qed.

Lemma emits_exit P code : emits P (exit code : M A).
Proof. intros env w. apply Forall_nil_2. Qed.

Lemma emits_bind P m f :
  emits P m -> (forall a, emits P (f a)) -> emits P (m ≫= f).
Proof.
  intros Hm Hf env w. rewrite run_bind.
  specialize (Hm env w). destruct (m env w) as [[[a|e|c] w1] t1]; try done.
  specialize (Hf a env w1). destruct (f a env w1) as [[o2 w2] t2].
  simpl in *. by apply Forall_app.
Qed.

Lemma emits_tryCatch P m (h : M A) :
  emits P m -> emits P h -> emits P (tryCatch m h).
Proof.
  intros Hm Hh env w. unfold tryCatch.
  specialize (Hm env w). destruct (m env w) as [[[a|e|c] w1] t1]; try done.
  specialize (Hh env w1). destruct (h env w1) as [[o2 w2] t2].
  simpl in *. by apply Forall_app.
Qed.

Lemma keepsGraph_ret (a : A) : keepsGraph (mret a : M A).
Proof. by intros env w. Qed.

Lemma keepsGraph_throw e : keepsGraph (throw e : M A).
Proof. by intros env w. Qed.

Lemma keepsGraph_exit code : keepsGraph (exit code : M A).
Proof. by intros env w. Qed.

Lemma keepsGraph_bind m f :
  keepsGraph m -> (forall a, keepsGraph (f a)) -> keepsGraph (m ≫= f).
Proof.
  intros Hm Hf env w. rewrite run_bind.
  specialize (Hm env w). destruct (m env w) as [[[a|e|c] w1] t1]; try done.
  specialize (Hf a env w1). destruct (f a env w1) as [[o2 w2] t2].
  simpl in *. congruence.
Qed.

Lemma keepsGraph_tryCatch m (h : M A) :
  keepsGraph m -> keepsGraph h -> keepsGraph (tryCatch m h).
Proof.
  intros Hm Hh env w. unfold tryCatch.
  specialize (Hm env w). destruct (m env w) as [[[a|e|c] w1] t1]; try done.
  specialize (Hh env w1). destruct (h env w1) as [[o2 w2] t2].
  simpl in *. congruence.
Qed.

Lemma aborts_ret (a : A) : abortsOnFailure (mret a : M A).
Proof. intros env w i e Hi. cbn in Hi. by rewrite lookup_nil in Hi. Qed.

Lemma aborts_throw e : abortsOnFailure (throw e : M A).
Proof. intros env w i e' Hi. cbn in Hi. by rewrite lookup_nil in Hi. Qed.

Lemma aborts_bind m f :
  abortsOnFailure m -> (forall a, abortsOnFailure (f a)) ->
  abortsOnFailure (m ≫= f).
Proof.
  intros Hm Hf env w. rewrite run_bind.
  specialize (Hm env w).
  destruct (m env w) as [[[a|e|c] w1] t1];
    [| intros i e' Hi He; destruct (Hm i e' Hi He) as [? [= ->]]; done
     | intros i e' Hi He; destruct (Hm i e' Hi He) as [? [=]] ].
  specialize (Hf a env w1). destruct (f a env w1) as [[o2 w2] t2].
  simpl in *. intros i e Hi He.
  apply lookup_app_Some in Hi as [Hi|[Hlen Hi]].
  - by destruct (Hm i e Hi He) as [_ ?].
  - destruct (Hf _ e Hi He) as [Hlast ->]. split; [|done].
    rewrite length_app. lia.
Qed.

(** A computation without external calls has no failed call. *)
Lemma aborts_of_emits m : emits notCall m -> abortsOnFailure m.
Proof.
  intros Hm env w i e Hi He. specialize (Hm env w).
  rewrite Forall_lookup in Hm. specialize (Hm i e Hi).
  destruct e; simpl in *; discriminate.
Qed.

Lemma matchOnly_of_emits m : emits notMatchLog m -> matchOnlyOnReturn m.
Proof.
  intros Hm env w Hex. specialize (Hm env w).
  apply existsb_exists in Hex as (e & Hin & He).
  rewrite Forall_forall in Hm. apply list_elem_of_In, Hm in Hin.
  unfold notMatchLog in Hin. rewrite He in Hin. discriminate.
Qed.

Lemma matchOnly_bind m f :
  emits notMatchLog m -> (forall a, matchOnlyOnReturn (f a)) ->
  matchOnlyOnReturn (m ≫= f).
Proof.
  intros Hm Hf env w. rewrite run_bind.
  pose proof (matchOnly_of_emits m Hm env w) as Hno.
  specialize (Hm env w).
  destruct (m env w) as [[[a|e|c] w1] t1];
    [| intros Hex; destruct (Hno Hex) as [? [=]] .. ].
  specialize (Hf a env w1). destruct (f a env w1) as [[o2 w2] t2].
  simpl in *. rewrite existsb_app. intros [H1|H2]%orb_true_iff; [|auto].
  apply existsb_exists in H1 as (e & Hin & He).
  rewrite Forall_forall in Hm. apply list_elem_of_In, Hm in Hin.
  unfold notMatchLog in Hin. rewrite He in Hin. discriminate.
Qed.

End Closure.

Section Primitives.

Context (P : Event -> bool).

Lemma emits_console level p :
  P (Console level p) = true -> emits P (console level p).
Proof. intros HP env w. by apply Forall_singleton. Qed.

Lemma emits_getenv key : emits P (getenv key).
Proof. intros env w. apply Forall_nil_2. Qed.

Lemma emits_openDriver uri username password :
  (forall ok, P (Connect ok) = true) ->
  emits P (openDriver uri username password).
Proof.
  intros HP env w. unfold openDriver.
  destruct (driverAccepts env uri); [|apply Forall_nil_2].
  destruct (serverAnswers env); by apply Forall_singleton.
Qed.

Lemma emits_executeQuery st :
  (forall ok, P (Query st ok) = true) -> emits P (executeQuery st).
Proof.
  intros HP env w. unfold executeQuery.
  destruct (driver w); [|apply Forall_nil_2].
  destruct (storeUp env (clock w)); [|by apply Forall_singleton].
  destruct (Store.execute st (graph w)). by apply Forall_singleton.
Qed.

Lemma emits_parse f req :
  (forall ok, P (Completion f req ok) = true) -> emits P (parse f req).
Proof.
  intros HP env w. unfold parse.
  destruct (completion env (clock w) f req); by apply Forall_singleton.
Qed.

Lemma emits_forOf {A S} (l : list A) (body : S -> A -> M S) :
  (forall s x, emits P (body s x)) -> forall s, emits P (forOf l body s).
Proof.
  intros Hbody. induction l as [|x l IH]; intros s; cbn [forOf].
  - apply emits_ret.
  - apply emits_bind; auto.
Qed.

End Primitives.

Lemma keepsGraph_console level p : keepsGraph (console level p).
Proof. by intros env w. Qed.

Lemma keepsGraph_getenv key : keepsGraph (getenv key).
Proof. by intros env w. Qed.

Lemma keepsGraph_openDriver uri username password :
  keepsGraph (openDriver uri username password).
Proof.
  intros env w. unfold openDriver.
  destruct (driverAccepts env uri); [|done]. by destruct (serverAnswers env).
Qed.

Lemma keepsGraph_parse f req : keepsGraph (parse f req).
Proof.
  intros env w. unfold parse. by destruct (completion env (clock w) f req).
Qed.

(** The two [MATCH] statements leave the store as it is. *)
Lemma keepsGraph_allSkills : keepsGraph (executeQuery Store.MatchAllSkills).
Proof.
  intros env w. unfold executeQuery.
  destruct (driver w); [|done]. by destruct (storeUp env (clock w)).
Qed.

Lemma keepsGraph_personQuery skill :
  keepsGraph (executeQuery (Store.MatchPersonsWithSkill skill)).
Proof.
  intros env w. unfold executeQuery.
  destruct (driver w); [|done]. by destruct (storeUp env (clock w)).
Qed.

Lemma keepsGraph_forOf {A S} (l : list A) (body : S -> A -> M S) :
  (forall s x, keepsGraph (body s x)) -> forall s, keepsGraph (forOf l body s).
Proof.
  intros Hbody. induction l as [|x l IH]; intros s; cbn [forOf].
  - apply keepsGraph_ret.
  - apply keepsGraph_bind; auto.
Qed.

Lemma aborts_console level p : abortsOnFailure (console level p).
Proof.
  intros env w i e Hi He. cbn in Hi.
  apply list_lookup_singleton_Some in Hi as [_ <-]. discriminate He.
Qed.

Lemma aborts_executeQuery st : abortsOnFailure (executeQuery st).
Proof.
  intros env w i e. unfold executeQuery.
  destruct (driver w); [|cbn; by rewrite lookup_nil].
  destruct (storeUp env (clock w)); [destruct (Store.execute st (graph w))|];
    cbn; intros [-> <-]%list_lookup_singleton_Some; [discriminate|done].
Qed.

Lemma aborts_parse f req : abortsOnFailure (parse f req).
Proof.
  intros env w i e. unfold parse.
  destruct (completion env (clock w) f req);
    cbn; intros [-> <-]%list_lookup_singleton_Some; [done|discriminate].
Qed.

Lemma aborts_forOf {A S} (l : list A) (body : S -> A -> M S) :
  (forall s x, abortsOnFailure (body s x)) ->
  forall s, abortsOnFailure (forOf l body s).
Proof.
  intros Hbody. induction l as [|x l IH]; intros s; cbn [forOf].
  - apply aborts_ret.
  - apply aborts_bind; auto.
Qed.

Lemma matchOnly_console level p : matchOnlyOnReturn (console level p).
Proof. intros env w _. by exists (). Qed.

(** One step of a proof that follows the structure of a function of the
    script: a rule for the combinator at the head, or a case analysis on
    the value the function branches on. *)
Ltac run_step :=
  first
    [ progress intros
    | progress cbv beta zeta
    | apply emits_ret | apply emits_throw | apply emits_exit
    | apply emits_getenv
    | apply emits_console; reflexivity
    | apply emits_openDriver; intros []; reflexivity
    | apply emits_executeQuery; intros []; reflexivity
    | refine (emits_parse _ _ _ _); intros []; reflexivity
    | apply emits_bind | apply emits_tryCatch | apply emits_forOf
    | apply keepsGraph_ret | apply keepsGraph_throw | apply keepsGraph_exit
    | apply keepsGraph_getenv | apply keepsGraph_console
    | apply keepsGraph_openDriver | refine (keepsGraph_parse _ _)
    | apply keepsGraph_allSkills | apply keepsGraph_personQuery
    | apply keepsGraph_bind | apply keepsGraph_tryCatch
    | apply keepsGraph_forOf
    | apply aborts_ret | apply aborts_throw | apply aborts_console
    | apply aborts_executeQuery | refine (aborts_parse _ _)
    | apply aborts_bind | apply aborts_forOf
    | apply matchOnly_bind | apply matchOnly_console
    | match goal with
      | |- _ (match ?x with _ => _ end) => destruct x
      end
    | apply matchOnly_of_emits ].

Ltac run_structure :=
  unfold Index.main, mainWith, workflow, connectDatabase, getAllSkills,
    findNecessarySkills, getPersonList, recordHolders, recordPerson,
    findMatchingPerson;
  repeat run_step.

Lemma connectDatabase_no_call : emits notCall connectDatabase.
Proof. run_structure. Qed.

Lemma mainWith_no_write problem : emits notWrite (mainWith problem).
Proof. run_structure. Qed.

Lemma mainWith_keepsGraph problem : keepsGraph (mainWith problem).
Proof. run_structure. Qed.

Lemma workflow_aborts problem : abortsOnFailure (workflow problem).
Proof. run_structure. Qed.

Lemma mainWith_aborts problem : abortsOnFailure (mainWith problem).
Proof.
  apply aborts_bind; [|intros _; apply workflow_aborts].
  apply aborts_of_emits, connectDatabase_no_call.
Qed.

Lemma mainWith_matchOnly problem : matchOnlyOnReturn (mainWith problem).
Proof. run_structure. Qed.

(** *** Claims about every run of [main] *)

(** C8: in every run of the script, a store query or a completion call
    that fails is the last thing that happens: the run ends there with the
    error of that call, no later step runs, and no match result is
    printed. *)
Theorem adapter_failure_aborts problem env w i e :
  let run := mainWith problem env w in
  run.2 !! i = Some e ->
  failed e = true ->
  S i = length run.2
  /\ run.1.1 = Thrown (errorOf e)
  /\ existsb isMatchLog run.2 = false.
Proof.
  cbv zeta. intros Hi He.
  destruct (mainWith_aborts problem env w i e Hi He) as [Hlast Hout].
  repeat split; [done..|].
  destruct (existsb isMatchLog (mainWith problem env w).2) eqn:Hlog; [|done].
  destruct (mainWith_matchOnly problem env w Hlog) as [a Ha].
  rewrite Ha in Hout. discriminate Hout.
Qed.

Lemma adapter_failure_aborts_witness :
  let run :=
    mainWith "I need a Java expert."
      (answering (Some 2%nat) (Resolves (Some (mkUsefulSkills ["Java"])))
                 (Resolves (Some adaMatch)))
      (initial adaGraph) in
  9%nat = length run.2
  /\ run.1.1 = Thrown StoreError
  /\ existsb isMatchLog run.2 = false.
Proof.
  exact (adapter_failure_aborts "I need a Java expert."
           (answering (Some 2%nat) (Resolves (Some (mkUsefulSkills ["Java"])))
                      (Resolves (Some adaMatch)))
           (initial adaGraph)
           8%nat (Query (Store.MatchPersonsWithSkill "Java") false)
           eq_refl eq_refl).
Defined.

(** C9: no run of the script changes the content of the store.  The two
    statements it sends are [MATCH] statements, which leave the store as
    it is; the [MERGE] statement of [addSkillToPerson] is never sent,
    since its only call is commented out. *)
Theorem mainWith_read_only problem skill env w :
  graph (mainWith problem env w).1.2 = graph w
  /\ existsb isWrite (mainWith problem env w).2 = false
  /\ graph (main env w).1.2 = graph w
  /\ existsb isWrite (main env w).2 = false
  /\ (Store.execute Store.MatchAllSkills (graph w)).1 = graph w
  /\ (Store.execute (Store.MatchPersonsWithSkill skill) (graph w)).1
     = graph w.
Proof.
  assert (Hquiet : forall text,
            existsb isWrite (mainWith text env w).2 = false).
  { intros text. pose proof (mainWith_no_write text env w) as Hall.
    destruct (existsb isWrite (mainWith text env w).2) eqn:Hex; [|done].
    apply existsb_exists in Hex as (e & Hin & He).
    rewrite Forall_forall in Hall. apply list_elem_of_In, Hall in Hin.
    unfold notWrite in Hin. rewrite He in Hin. discriminate Hin. }
  split; [apply mainWith_keepsGraph|]. split; [apply Hquiet|].
  split; [apply mainWith_keepsGraph|]. split; [apply Hquiet|].
  split; reflexivity.
Qed.

(** The earlier version of [main] writes nothing either, and stops at a
    failed call in the same way. *)
Lemma index_main_keepsGraph : keepsGraph Index.main.
Proof. run_structure. Qed.

Lemma index_main_no_write : emits notWrite Index.main.
Proof. run_structure. Qed.

(** Its step 2 on a store that lists Java, JavaScript and Rust. *)
Example index_main_prompt :
  calls (Index.main (answering None (Resolves None) Rejects)
                    (initial adaGraph)).2 =
  [Query Store.MatchAllSkills true;
   Completion UsefulSkillsFormat
     (mkChatRequest "gpt-4o"
        [mkMessage System
           "Find the skills out of the following list that could help the most with the problem the user describes. Java, JavaScript, Rust";
         mkMessage User "I need a Java expert."])
     true].
Proof. reflexivity. Qed.

(** The second scenario of the specification: JavaScript and C#, both
    held by Lius Hohmann. *)
Example lius_scenario :
  getPersonList ["JavaScript"; "C#"] (answering None Rejects Rejects)
    (connected liusGraph) =
  (Returned [("Lius Hohmann", ["JavaScript"; "C#"])],
   mkWorld true liusGraph 2,
   [Console LLog (Text "Getting all persons having the necessary skills...");
    Query (Store.MatchPersonsWithSkill "JavaScript") true;
    Query (Store.MatchPersonsWithSkill "C#") true]).
Proof. reflexivity. Qed.

(* ================================================================== *)
(** ** Further properties of the script *)
(* ================================================================== *)

(** *** [connectDatabase] *)

Lemma run_connectDatabase env w :
  connectDatabase env w =
  let start := Console LDebug (Text "Connecting to database...") in
  let w' := mkWorld true (graph w) (clock w) in
  if missing (processEnv env "NEO4J_URI") then
    (Exited 1, w,
     [start;
      Console LError
        (Text "Please set the environment variable 'NEO4J_URI'")])
  else if missing (processEnv env "NEO4J_USERNAME") then
    (Exited 1, w,
     [start;
      Console LError
        (Text "Please set the environment variable 'NEO4J_USERNAME'")])
  else if missing (processEnv env "NEO4J_PASSWORD") then
    (Exited 1, w,
     [start;
      Console LError
        (Text "Please set the environment variable 'NEO4J_PASSWORD'")])
  else if driverAccepts env
            (default EmptyString (processEnv env "NEO4J_URI")) then
    if serverAnswers env then (Returned (), w', [start; Connect true])
    else
      (Exited 1, w',
       [start; Connect false;
        Console LError (Text "Can't connect to database.")])
  else
    (Exited 1, w,
     [start; Console LError (Text "Can't connect to database.")]).
Proof.
  unfold connectDatabase.
  cbv [mbind M_bind mret M_ret getenv console exit tryCatch openDriver].
  destruct (missing (processEnv env "NEO4J_URI")); [reflexivity|].
  destruct (missing (processEnv env "NEO4J_USERNAME")); [reflexivity|].
  destruct (missing (processEnv env "NEO4J_PASSWORD")); [reflexivity|].
  destruct (driverAccepts env _); [|reflexivity].
  destruct (serverAnswers env); reflexivity.
Qed.

(** X1: [connectDatabase] never throws.  It returns, with the driver
    assigned, exactly when the three connection parameters are set and
    not empty, [neo4j.driver] accepts the URI and the server answers; in
    every other case the process exits with code 1 after exactly one
    error line.  A connection is tried, and the driver assigned, only
    when the three parameters are there and the URI is accepted: on a
    URI that [neo4j.driver] rejects the driver is left as it was.  The
    store is neither queried nor changed. *)
Theorem connectDatabase_outcome env w :
  let run := connectDatabase env w in
  let uri := default EmptyString (processEnv env "NEO4J_URI") in
  let opened := configured env && driverAccepts env uri in
  run.1.1 = (if opened && serverAnswers env then Returned () else Exited 1)
  /\ existsb isConnect run.2 = opened
  /\ length (List.filter
               (fun e => match e with Console LError _ => true | _ => false end)
               run.2)
     = (if opened && serverAnswers env then 0 else 1)%nat
  /\ driver run.1.2 = (driver w || opened)
  /\ graph run.1.2 = graph w
  /\ clock run.1.2 = clock w
  /\ calls run.2 = [].
Proof.
  cbv zeta. rewrite run_connectDatabase. unfold configured. cbv zeta.
  destruct (missing (processEnv env "NEO4J_URI"));
    [by rewrite orb_false_r|].
  destruct (missing (processEnv env "NEO4J_USERNAME"));
    [by rewrite orb_false_r|].
  destruct (missing (processEnv env "NEO4J_PASSWORD"));
    [by rewrite orb_false_r|].
  destruct (driverAccepts env _); [|by rewrite orb_false_r].
  destruct (serverAnswers env); by rewrite orb_true_r.
Qed.

(** The three ways in which the connection fails. *)
Example connectDatabase_failures :
  let env := answering None Rejects Rejects in
  let start := Console LDebug (Text "Connecting to database...") in
  let failed := Console LError (Text "Can't connect to database.") in
  connectDatabase (lacking "NEO4J_PASSWORD" env) (initial adaGraph)
  = (Exited 1, initial adaGraph,
     [start;
      Console LError
        (Text "Please set the environment variable 'NEO4J_PASSWORD'")])
  /\ connectDatabase (malformed env) (initial adaGraph)
     = (Exited 1, initial adaGraph, [start; failed])
  /\ connectDatabase (unreachable env) (initial adaGraph)
     = (Exited 1, connected adaGraph, [start; Connect false; failed]).
Proof. repeat split. Qed.

(** X2: when a connection parameter is missing or empty, or the server
    does not answer, [main] stops at [connectDatabase]: the process exits
    with code 1, and no store query and no completion call is made; the
    run of [main] is the run of [connectDatabase]. *)
Theorem main_stops_unconnected problem env w :
  configured env && serverAnswers env = false ->
  (mainWith problem env w).1.1 = Exited 1
  /\ (mainWith problem env w).1.2 = (connectDatabase env w).1.2
  /\ (mainWith problem env w).2 = (connectDatabase env w).2
  /\ calls (mainWith problem env w).2 = [].
Proof.
  unfold configured, mainWith. intros Hno.
  rewrite run_bind, run_connectDatabase. cbv zeta.
  destruct (missing (processEnv env "NEO4J_URI")); [by auto|].
  destruct (missing (processEnv env "NEO4J_USERNAME")); [by auto|].
  destruct (missing (processEnv env "NEO4J_PASSWORD")); [by auto|].
  destruct (driverAccepts env _); [|by auto].
  destruct (serverAnswers env); [discriminate Hno | by auto].
Qed.

Lemma main_stops_unconnected_witness :
  let env := lacking "NEO4J_USERNAME" (answering None Rejects Rejects) in
  (mainWith "I need a Java expert." env (initial adaGraph)).1.1 = Exited 1
  /\ calls (mainWith "I need a Java expert." env (initial adaGraph)).2 = [].
Proof.
  cbv zeta.
  destruct (main_stops_unconnected "I need a Java expert."
              (lacking "NEO4J_USERNAME" (answering None Rejects Rejects))
              (initial adaGraph) eq_refl) as (Hout & _ & _ & Hcalls).
  split; [exact Hout | exact Hcalls].
Defined.

(** *** [getAllSkills] *)

(** X3: [getAllSkills] returns exactly when the driver is assigned and
    the store answers, and then its list holds the name of each Skill
    node, in the order of the store and with repetitions, and of no other
    node; the store is left as it is.  When the store does not answer it
    throws the store's error, and with no driver it throws a TypeError
    before any query is sent. *)
Theorem getAllSkills_result env w :
  let run := getAllSkills env w in
  let g := graph w in
  ((exists l, run.1.1 = Returned l)
   <-> driver w = true /\ storeUp env (clock w) = true)
  /\ (forall l, run.1.1 = Returned l ->
        l = Store.nodeName
              <$> filter (fun n => Store.nodeLabel n = Store.Skill)
                         (Store.nodes g)
        /\ forall name,
             name ∈ l <->
             exists n, n ∈ Store.nodes g
                       /\ Store.nodeLabel n = Store.Skill
                       /\ Store.nodeName n = name)
  /\ graph run.1.2 = g
  /\ (driver w = true -> storeUp env (clock w) = false ->
      run.1.1 = Thrown StoreError)
  /\ (driver w = false -> run.1.1 = Thrown TypeError /\ calls run.2 = []).
Proof.
  cbv zeta. rewrite run_getAllSkills.
  assert (Hnames : forall name,
            name ∈ Store.listAllSkills (graph w) <->
            exists n, n ∈ Store.nodes (graph w)
                      /\ Store.nodeLabel n = Store.Skill
                      /\ Store.nodeName n = name).
  { intros name. unfold Store.listAllSkills, Store.skillNodes.
    rewrite list_elem_of_fmap. split.
    - intros (n & -> & Hn). apply list_elem_of_filter in Hn as [Hl Hn]. eauto.
    - intros (n & Hn & Hl & <-). exists n. split; [done|].
      apply list_elem_of_filter. auto. }
  destruct (driver w), (storeUp env (clock w)); simpl.
  - split; [split; eauto|]. split; [|by auto].
    intros l [= <-]. split; [reflexivity | exact Hnames].
  - split; [split; [intros [l [=]] | intros [_ [=]]]|].
    split; [intros l [=] | by auto].
  - split; [split; [intros [l [=]] | intros [[=] _]]|].
    split; [intros l [=]|]. split; [reflexivity|].
    split; [intros [=] | by auto].
  - split; [split; [intros [l [=]] | intros [[=] _]]|].
    split; [intros l [=]|]. split; [reflexivity|].
    split; [intros [=] | by auto].
Qed.

Lemma getAllSkills_result_witness :
  (getAllSkills (answering None Rejects Rejects) (connected adaGraph)).1.1
  = Returned ["Java"; "JavaScript"; "Rust"]
  /\ (getAllSkills (answering (Some 0%nat) Rejects Rejects)
        (connected adaGraph)).1.1 = Thrown StoreError.
Proof.
  split.
  - reflexivity.
  - destruct (getAllSkills_result (answering (Some 0%nat) Rejects Rejects)
                (connected adaGraph)) as (_ & _ & _ & Hdown & _).
    apply Hdown; reflexivity.
Defined.

(** *** [getPersonList] *)

Lemma calls_queries (skills : list string) :
  calls ((fun skill => Query (Store.MatchPersonsWithSkill skill) true)
           <$> skills)
  = (fun skill => Query (Store.MatchPersonsWithSkill skill) true) <$> skills.
Proof.
  induction skills as [|s skills IH]; [reflexivity|].
  unfold calls in *. simpl. f_equal. exact IH.
Qed.

(** X4: a call of [getPersonList] that returns has sent exactly one
    person query per relevant skill, in the order of the sequence and
    once more for each repetition, all of them answered, and nothing
    else; the store is left as it is. *)
Theorem getPersonList_queries skills env w c w' t :
  getPersonList skills env w = (Returned c, w', t) ->
  calls t
  = (fun skill => Query (Store.MatchPersonsWithSkill skill) true) <$> skills
  /\ length (calls t) = length skills
  /\ clock w' = (clock w + length skills)%nat
  /\ graph w' = graph w.
Proof.
  unfold getPersonList. rewrite run_bind, run_console.
  destruct_loop o w1 t1 Hloop. intros [= -> <- <-].
  apply (holders_returned _ _ _ _ _ _ _ _ represents_empty) in Hloop
    as (_ & Hg & Hk & ->).
  change (calls (?e :: ?l)) with (calls l).
  rewrite calls_queries, length_fmap. auto.
Qed.

Lemma getPersonList_queries_witness :
  calls (getPersonList ["Java"; "Rust"; "Java"]
           (answering None Rejects Rejects) (connected adaGraph)).2
  = [Query (Store.MatchPersonsWithSkill "Java") true;
     Query (Store.MatchPersonsWithSkill "Rust") true;
     Query (Store.MatchPersonsWithSkill "Java") true].
Proof.
  eapply (getPersonList_queries ["Java"; "Rust"; "Java"]
            (answering None Rejects Rejects) (connected adaGraph)).
  vm_compute. reflexivity.
Defined.

(** The reference map in terms of membership: which skills it lists for
    which person. *)
Lemma appendSkill_lists skill m q person x :
  lists (Reference.appendSkill skill m q) person x
  <-> lists m person x \/ (x = skill /\ person = q).
Proof.
  unfold lists, Reference.appendSkill.
  destruct (decide (person = q)) as [->|Hne].
  - rewrite lookup_insert_eq. split.
    + intros (held & [= <-] & Hx). apply elem_of_app in Hx as [Hx|Hx].
      * left. destruct (m !! q) as [old|]; [eauto|].
        by apply not_elem_of_nil in Hx.
      * right. by apply list_elem_of_singleton in Hx.
    + intros [(held & Hm & Hx) | [-> _]]; eexists; (split; [reflexivity|]).
      * rewrite Hm. apply elem_of_app. by left.
      * apply elem_of_app. right. apply list_elem_of_here.
  - rewrite lookup_insert_ne by done. split; [by left|].
    intros [?|[_ ?]]; done.
Qed.

Lemma appendAll_lists skill persons :
  forall m person x,
    lists (foldl (Reference.appendSkill skill) m persons) person x
    <-> lists m person x \/ (x = skill /\ person ∈ persons).
Proof.
  induction persons as [|q persons IH]; intros m person x; cbn [foldl].
  - split; [by left|]. intros [?|[_ Hin]]; [done|].
    by apply not_elem_of_nil in Hin.
  - rewrite IH, appendSkill_lists, elem_of_cons. tauto.
Qed.

Lemma personSkillMap_lists persons skills :
  forall m person x,
    lists (foldl (fun m skill =>
                    foldl (Reference.appendSkill skill) m (persons skill))
                 m skills) person x
    <-> lists m person x \/ (x ∈ skills /\ person ∈ persons x).
Proof.
  induction skills as [|s skills IH]; intros m person x; cbn [foldl].
  - split; [by left|]. intros [?|[Hin _]]; [done|].
    by apply not_elem_of_nil in Hin.
  - rewrite IH, appendAll_lists, elem_of_cons. split.
    + intros [[?|[-> ?]]|[? ?]]; auto.
    + intros [?|[[->|?] ?]]; auto.
Qed.

Lemma appendAll_nonempty skill persons :
  forall m : gmap string (list string),
    (forall person held, m !! person = Some held -> held <> []) ->
    forall person held,
      foldl (Reference.appendSkill skill) m persons !! person = Some held ->
      held <> [].
Proof.
  induction persons as [|q persons IH]; intros m Hm; cbn [foldl]; [done|].
  apply IH. intros person held. unfold Reference.appendSkill.
  destruct (decide (person = q)) as [->|Hne].
  - rewrite lookup_insert_eq. intros [= <-]. by destruct (default [] (m !! q)).
  - rewrite lookup_insert_ne by done. apply Hm.
Qed.

Lemma personSkillMap_nonempty persons skills :
  forall m : gmap string (list string),
    (forall person held, m !! person = Some held -> held <> []) ->
    forall person held,
      foldl (fun m skill =>
               foldl (Reference.appendSkill skill) m (persons skill))
            m skills !! person = Some held ->
      held <> [].
Proof.
  induction skills as [|s skills IH]; intros m Hm; cbn [foldl]; [done|].
  apply IH. by apply appendAll_nonempty.
Qed.

Lemma returned_lists skills env w c w' t :
  getPersonList skills env w = (Returned c, w', t) ->
  forall person skill,
    (exists held, Js.getOwn c person = Some held /\ skill ∈ held)
    <-> skill ∈ skills
        /\ person ∈ Store.listPersonsWithSkill (graph w) skill.
Proof.
  intros Hrun person skill.
  apply getPersonList_refines in Hrun as [Hc _]. rewrite (Hc person).
  unfold Reference.personSkillMap.
  pose proof (personSkillMap_lists
                (Store.listPersonsWithSkill (graph w)) skills ∅
                person skill) as Hiff.
  unfold lists in Hiff. rewrite Hiff. split; [|by right].
  intros [(held & Hempty & _)|?]; [|done].
  by rewrite lookup_empty in Hempty.
Qed.

(** X5: in the map that [getPersonList] returns, the entry of a person
    lists a skill exactly when the skill is one of the relevant skills
    and the store's answer for that skill names the person; no entry is
    empty, so the keys are the persons who hold at least one relevant
    skill. *)
Theorem getPersonList_membership skills env w c w' t :
  getPersonList skills env w = (Returned c, w', t) ->
  (forall person skill,
      (exists held, Js.getOwn c person = Some held /\ skill ∈ held)
      <-> skill ∈ skills
          /\ person ∈ Store.listPersonsWithSkill (graph w) skill)
  /\ (forall person held, Js.getOwn c person = Some held -> held <> [])
  /\ (forall person,
        is_Some (Js.getOwn c person)
        <-> exists skill,
              skill ∈ skills
              /\ person ∈ Store.listPersonsWithSkill (graph w) skill).
Proof.
  intros Hrun. pose proof (returned_lists _ _ _ _ _ _ Hrun) as Hlists.
  apply getPersonList_refines in Hrun as [Hc _].
  assert (Hne : forall person held,
            Js.getOwn c person = Some held -> held <> []).
  { intros person held. rewrite (Hc person).
    apply personSkillMap_nonempty. intros p h. by rewrite lookup_empty. }
  split; [exact Hlists|]. split; [exact Hne|].
  intros person. split.
  - intros [held Hheld]. pose proof (Hne _ _ Hheld) as Hnonempty.
    destruct held as [|skill held]; [done|].
    exists skill. apply Hlists. exists (skill :: held).
    split; [done | apply list_elem_of_here].
  - intros (skill & Hskill). apply Hlists in Hskill as (held & -> & _).
    by eexists.
Qed.

Lemma getPersonList_membership_witness :
  let c := [("Lius Hohmann", ["JavaScript"; "C#"])] in
  (exists held, Js.getOwn c "Lius Hohmann" = Some held /\ "C#" ∈ held)
  <-> "C#" ∈ ["JavaScript"; "Go"; "C#"]
      /\ "Lius Hohmann" ∈ Store.listPersonsWithSkill liusGraph "C#".
Proof.
  cbv zeta.
  apply (getPersonList_membership ["JavaScript"; "Go"; "C#"]
           (answering None Rejects Rejects) (connected liusGraph)
           [("Lius Hohmann", ["JavaScript"; "C#"])]
           (mkWorld true liusGraph 3)
           [Console LLog
              (Text "Getting all persons having the necessary skills...");
            Query (Store.MatchPersonsWithSkill "JavaScript") true;
            Query (Store.MatchPersonsWithSkill "Go") true;
            Query (Store.MatchPersonsWithSkill "C#") true]).
  vm_compute. reflexivity.
Defined.

(** X6: when no answer of the store names a person twice, the entry of
    a person in the map that [getPersonList] returns is the sequence of
    the relevant skills, each as often as the sequence has it, whose
    answer names the person, in the order of the sequence; a person named
    by no answer has no entry. *)
Theorem getPersonList_entry skills env w c w' t person :
  (forall skill, skill ∈ skills ->
                 NoDup (Store.listPersonsWithSkill (graph w) skill)) ->
  getPersonList skills env w = (Returned c, w', t) ->
  Js.getOwn c person =
  match filter (fun skill =>
                  person ∈ Store.listPersonsWithSkill (graph w) skill)
               skills with
  | [] => None
  | held => Some held
  end.
Proof.
  intros Hrows Hrun. apply getPersonList_refines in Hrun as [Hc _].
  rewrite (Hc person). by apply personSkillMap_lookup.
Qed.

Lemma getPersonList_entry_witness :
  Js.getOwn [("Ada Lovelace", ["Java"; "Java"])] "Ada Lovelace"
  = Some ["Java"; "Java"].
Proof.
  apply (getPersonList_entry ["Java"; "Rust"; "Java"]
           (answering None Rejects Rejects) (connected adaGraph)
           [("Ada Lovelace", ["Java"; "Java"])]
           (mkWorld true adaGraph 3)
           [Console LLog
              (Text "Getting all persons having the necessary skills...");
            Query (Store.MatchPersonsWithSkill "Java") true;
            Query (Store.MatchPersonsWithSkill "Rust") true;
            Query (Store.MatchPersonsWithSkill "Java") true]
           "Ada Lovelace").
  - intros skill Hin.
    apply elem_of_cons in Hin as [->|Hin]; [vm_compute; apply NoDup_singleton|].
    apply elem_of_cons in Hin as [->|Hin]; [vm_compute; apply NoDup_nil_2|].
    apply list_elem_of_singleton in Hin as ->.
    vm_compute. apply NoDup_singleton.
  - vm_compute. reflexivity.
Defined.

(** *** The object that [getPersonList] builds *)

Lemma getOwn_None {V} (o : Js.object V) key :
  Js.getOwn o key = None <-> key ∉ o.*1.
Proof.
  induction o as [|[k v] rest IH]; simpl.
  - split; [intros _; apply not_elem_of_nil | done].
  - destruct (String.eqb_spec k key) as [->|Hne].
    + split; [done|]. intros Hnot. exfalso. apply Hnot, list_elem_of_here.
    + rewrite IH, not_elem_of_cons. split; [|by intros [_ ?]].
      intros Hrest. split; [congruence | done].
Qed.

Lemma set_keys {V} (o : Js.object V) key v :
  (Js.set o key v).*1 =
  match Js.getOwn o key with
  | Some _ => o.*1
  | None => o.*1 ++ [key]
  end.
Proof.
  induction o as [|[k w] rest IH]; csimpl; [reflexivity|].
  destruct (String.eqb_spec k key) as [->|Hne]; csimpl; [reflexivity|].
  rewrite IH. by destruct (Js.getOwn rest key).
Qed.

(** A property of the object that every row keeps is kept by the loops. *)
Lemma forOf_invariant {A S} (I : S -> Prop) (body : S -> A -> M S) l :
  (forall s x env w s' w' t,
      I s -> body s x env w = (Returned s', w', t) -> I s') ->
  forall s env w s' w' t,
    I s -> forOf l body s env w = (Returned s', w', t) -> I s'.
Proof.
  intros Hbody. induction l as [|x l IH]; intros s env w s' w' t Hs;
    cbn [forOf].
  - rewrite run_ret. by intros [= <- _ _].
  - rewrite run_bind.
    destruct (body s x env w) as [[[s1|e|code] w1] t1] eqn:Hx; try discriminate.
    destruct_loop o2 w2 t2 Hrest. intros [= -> <- <-].
    eapply IH; [|exact Hrest]. eapply Hbody; eauto.
Qed.

Lemma getPersonList_invariant (I : PersonContainer -> Prop) :
  I [] ->
  (forall skill c record env w c' w' t,
      I c -> recordPerson skill c record env w = (Returned c', w', t) -> I c') ->
  forall skills env w c w' t,
    getPersonList skills env w = (Returned c, w', t) -> I c.
Proof.
  intros Hempty Hrow skills env w c w' t. unfold getPersonList.
  rewrite run_bind, run_console. destruct_loop o w1 t1 Hloop.
  intros [= -> <- <-]. revert Hloop. apply forOf_invariant; [|done].
  intros c0 skill env0 w0 c1 w2 t2 Hc0. unfold recordHolders.
  rewrite run_bind.
  destruct (executeQuery _ env0 w0) as [[[records|e|code] w3] t3];
    try discriminate.
  destruct_loop o4 w4 t4 Hrows. intros [= -> <- <-]. revert Hrows.
  apply forOf_invariant; [|done]. apply Hrow.
Qed.

Lemma returned_keys_nodup skills env w c w' t :
  getPersonList skills env w = (Returned c, w', t) -> NoDup c.*1.
Proof.
  apply (getPersonList_invariant (fun c => NoDup c.*1)).
  - apply NoDup_nil_2.
  - intros skill c0 record env0 w0 c1 w1 t1 Hnd.
    rewrite recordPerson_run.
    destruct (Js.getOwn c0 (Store.nodeName record)) as [held|] eqn:Hown.
    + intros [= <- _ _]. by rewrite set_keys, Hown.
    + destruct (Js.inherited _); [discriminate|].
      intros [= <- _ _]. rewrite set_keys, Hown.
      apply NoDup_app. split; [done|]. split; [|apply NoDup_singleton].
      intros k Hk Hk'. apply list_elem_of_singleton in Hk' as ->.
      by apply getOwn_None in Hown.
Qed.

Lemma returned_keys_safe skills env w c w' t :
  getPersonList skills env w = (Returned c, w', t) ->
  forall person, person ∈ c.*1 -> Js.inherited person = false.
Proof.
  apply (getPersonList_invariant
           (fun c => forall person,
                       person ∈ c.*1 -> Js.inherited person = false)).
  - intros person Hin. by apply not_elem_of_nil in Hin.
  - intros skill c0 record env0 w0 c1 w1 t1 Hsafe.
    rewrite recordPerson_run.
    destruct (Js.getOwn c0 (Store.nodeName record)) as [held|] eqn:Hown.
    + intros [= <- _ _]. by rewrite set_keys, Hown.
    + destruct (Js.inherited _) eqn:Hinh; [discriminate|].
      intros [= <- _ _]. rewrite set_keys, Hown.
      intros person [Hin|Hin]%elem_of_app; [by apply Hsafe|].
      by apply list_elem_of_singleton in Hin as ->.
Qed.

Lemma keys_getOwn {V} (o : Js.object V) key :
  key ∈ o.*1 <-> is_Some (Js.getOwn o key).
Proof.
  rewrite <- not_eq_None_Some, getOwn_None.
  destruct (decide (key ∈ o.*1)); [|tauto].
  split; [|done]. intros _ Hnot. by apply Hnot.
Qed.

(** X7: the map that [getPersonList] returns has each person as a key
    once, and none of its keys is a name that object literals inherit. *)
Theorem getPersonList_keys skills env w c w' t :
  getPersonList skills env w = (Returned c, w', t) ->
  NoDup c.*1
  /\ (forall person, person ∈ c.*1 -> Js.inherited person = false)
  /\ (forall person, person ∈ c.*1 <-> is_Some (Js.getOwn c person)).
Proof.
  intros Hrun. split; [by eapply returned_keys_nodup|].
  split; [by eapply returned_keys_safe|]. intros person. apply keys_getOwn.
Qed.

Lemma getPersonList_keys_witness :
  NoDup [("Lius Hohmann", ["JavaScript"; "C#"])].*1.
Proof.
  eapply (getPersonList_keys ["JavaScript"; "C#"]
            (answering None Rejects Rejects) (connected liusGraph)).
  vm_compute. reflexivity.
Defined.

(** *** When [getPersonList] returns, and when it throws *)

Lemma rows_outcome skill records :
  forall c env w,
    exists o,
      forOf records (recordPerson skill) c env w = (o, w, [])
      /\ ((exists c', o = Returned c') \/ o = Thrown TypeError).
Proof.
  induction records as [|r records IH]; intros c env w; cbn [forOf].
  - exists (Returned c). split; [reflexivity|]. left. by eexists.
  - rewrite run_bind, recordPerson_run.
    destruct (Js.getOwn c (Store.nodeName r)) as [held|].
    + destruct (IH (Js.set c (Store.nodeName r) (held ++ [skill])) env w)
        as (o & -> & Ho). eauto.
    + destruct (Js.inherited _); [eauto|].
      destruct (IH (Js.set c (Store.nodeName r) [skill]) env w)
        as (o & -> & Ho). eauto.
Qed.

Lemma holders_outcome skills :
  forall c env w,
    driver w = true ->
    (forall i, (i < length skills)%nat -> storeUp env (clock w + i) = true) ->
    exists o w' t,
      forOf skills recordHolders c env w = (o, w', t)
      /\ ((exists c', o = Returned c') \/ o = Thrown TypeError).
Proof.
  induction skills as [|s skills IH]; intros c env w Hd Hup; cbn [forOf].
  - exists (Returned c), w, []. split; [reflexivity|]. left. by eexists.
  - assert (Hup0 : storeUp env (clock w) = true).
    { rewrite <- (Nat.add_0_r (clock w)). apply Hup. simpl. lia. }
    rewrite run_bind. unfold recordHolders at 1.
    rewrite run_bind, run_personQuery, Hd, Hup0.
    destruct (rows_outcome s (Store.personsWithSkill s (graph w)) c env
                (mkWorld true (graph w) (S (clock w))))
      as (o1 & -> & [[c1 ->] | ->]); [|eauto 6].
    destruct (IH c1 env (mkWorld true (graph w) (S (clock w))))
      as (o & w' & t & -> & Ho); simpl; eauto 6.
    intros i Hi. replace (S (clock w + i)) with (clock w + S i)%nat by lia.
    apply Hup. simpl. lia.
Qed.

Lemma inherited_answers_dec (answer : string -> list string)
    (skills : list string) :
  (forall skill person,
      skill ∈ skills -> person ∈ answer skill -> Js.inherited person = false)
  \/ (exists skill person,
        skill ∈ skills /\ person ∈ answer skill
        /\ Js.inherited person = true).
Proof.
  induction skills as [|s skills IH].
  - left. intros skill person Hin. by apply not_elem_of_nil in Hin.
  - destruct IH as [Hall | (skill & person & Hs & Hp & Hi)].
    + destruct (decide (Forall (fun p => Js.inherited p = false) (answer s)))
        as [Hs | Hs].
      * left. intros skill person [->|Hin]%elem_of_cons; [|by apply Hall].
        rewrite Forall_forall in Hs. apply Hs.
      * right. apply not_Forall_Exists in Hs; [|intros x; apply _].
        apply Exists_exists in Hs as (person & Hp & Hi).
        exists s, person. split; [apply list_elem_of_here|]. split; [done|].
        simpl in Hi. by destruct (Js.inherited person).
    + right. exists skill, person. split; [by apply list_elem_of_further|].
      done.
Qed.

(** X8: with the driver assigned and the store answering each query,
    [getPersonList] returns a map exactly when no answer for a relevant
    skill names a person whose name is one that object literals inherit
    (constructor, toString, __proto__, ...); when some answer does, it
    throws a TypeError, and it ends in no other way. *)
Theorem getPersonList_returns_iff skills env w :
  driver w = true ->
  (forall i, (i < length skills)%nat -> storeUp env (clock w + i) = true) ->
  let run := getPersonList skills env w in
  let answer := Store.listPersonsWithSkill (graph w) in
  ((exists c, run.1.1 = Returned c)
   <-> forall skill person,
         skill ∈ skills -> person ∈ answer skill ->
         Js.inherited person = false)
  /\ (run.1.1 = Thrown TypeError
      <-> exists skill person,
            skill ∈ skills /\ person ∈ answer skill
            /\ Js.inherited person = true).
Proof.
  intros Hd Hup. cbv zeta.
  assert (Hsafe : (exists c, (getPersonList skills env w).1.1 = Returned c) ->
                  forall skill person,
                    skill ∈ skills ->
                    person ∈ Store.listPersonsWithSkill (graph w) skill ->
                    Js.inherited person = false).
  { intros [c Hc] skill person Hs Hp.
    destruct (getPersonList skills env w) as [[o w'] t] eqn:Hrun.
    simpl in Hc. subst o.
    apply (returned_keys_safe _ _ _ _ _ _ Hrun), keys_getOwn.
    destruct (proj2 (returned_lists _ _ _ _ _ _ Hrun person skill)
                (conj Hs Hp)) as (held & -> & _).
    by eexists. }
  assert (Hout : (exists c, (getPersonList skills env w).1.1 = Returned c)
                 \/ (getPersonList skills env w).1.1 = Thrown TypeError).
  { unfold getPersonList. rewrite run_bind, run_console.
    destruct (holders_outcome skills [] env w Hd Hup)
      as (o & w' & t & -> & [[c ->] | ->]); simpl; eauto. }
  split.
  - split; [exact Hsafe|]. intros Hnames.
    destruct (getPersonList_total skills env w Hd Hup Hnames) as [c ->].
    by exists c.
  - split.
    + intros Hthrow.
      destruct (inherited_answers_dec
                  (Store.listPersonsWithSkill (graph w)) skills)
        as [Hnames | Hsome]; [|exact Hsome].
      destruct (getPersonList_total skills env w Hd Hup Hnames) as [c Hc].
      rewrite Hc in Hthrow. discriminate Hthrow.
    + intros (skill & person & Hs & Hp & Hi).
      destruct Hout as [Hret | Hthrow]; [|exact Hthrow].
      rewrite (Hsafe Hret skill person Hs Hp) in Hi. discriminate Hi.
Qed.

Lemma getPersonList_returns_iff_witness :
  (getPersonList ["Java"; "Rust"] (answering None Rejects Rejects)
     (connected constructorGraph)).1.1 = Thrown TypeError.
Proof.
  apply (getPersonList_returns_iff ["Java"; "Rust"]
           (answering None Rejects Rejects) (connected constructorGraph)
           eq_refl (fun i _ => eq_refl)).
  exists "Rust", "constructor". split; [|split; [|reflexivity]].
  - apply list_elem_of_further, list_elem_of_here.
  - apply list_elem_of_here.
Defined.

Lemma forOf_app {A S} (l1 l2 : list A) (body : S -> A -> M S) :
  forall s env w,
    forOf (l1 ++ l2) body s env w =
    (s' ← forOf l1 body s; forOf l2 body s') env w.
Proof.
  induction l1 as [|x l1 IH]; intros s env w; cbn [forOf app].
  - rewrite run_bind, run_ret.
    destruct (forOf l2 body s env w) as [[o w'] t]. reflexivity.
  - rewrite !run_bind.
    destruct (body s x env w) as [[[s1|e|code] w1] t1]; try reflexivity.
    rewrite IH, run_bind.
    destruct (forOf l1 body s1 env w1) as [[[s2|e|code] w2] t2];
      try reflexivity.
    destruct (forOf l2 body s2 env w2) as [[o3 w3] t3].
    by rewrite app_assoc.
Qed.

(** X9: when the store stops answering in the middle of
    [getPersonList], the call throws the store's error at that query: the
    queries before it were answered, the failing query is the last
    event, the skills after it are never asked for, and the map built so
    far is not returned. *)
Theorem getPersonList_store_failure asked failing rest env w :
  driver w = true ->
  (forall i, (i < length asked)%nat -> storeUp env (clock w + i) = true) ->
  storeUp env (clock w + length asked) = false ->
  (forall skill person,
      skill ∈ asked ->
      person ∈ Store.listPersonsWithSkill (graph w) skill ->
      Js.inherited person = false) ->
  getPersonList (asked ++ failing :: rest) env w =
  (Thrown StoreError,
   mkWorld true (graph w) (S (clock w + length asked)),
   Console LLog (Text "Getting all persons having the necessary skills...")
     :: ((fun skill => Query (Store.MatchPersonsWithSkill skill) true)
           <$> asked)
     ++ [Query (Store.MatchPersonsWithSkill failing) false]).
Proof.
  intros Hd Hup Hdown Hnames. unfold getPersonList.
  rewrite run_bind, run_console, forOf_app, run_bind.
  destruct (holders_total asked [] env w Hd Hup Hnames) as [c ->].
  cbn [forOf]. rewrite run_bind. unfold recordHolders at 1.
  rewrite run_bind, run_personQuery. cbn [driver clock graph].
  rewrite Hdown. reflexivity.
Qed.

Lemma getPersonList_store_failure_witness :
  getPersonList ["Java"; "Rust"; "JavaScript"]
    (answering (Some 1%nat) Rejects Rejects) (connected adaGraph) =
  (Thrown StoreError,
   mkWorld true adaGraph 2,
   [Console LLog (Text "Getting all persons having the necessary skills...");
    Query (Store.MatchPersonsWithSkill "Java") true;
    Query (Store.MatchPersonsWithSkill "Rust") false]).
Proof.
  apply (getPersonList_store_failure ["Java"] "Rust" ["JavaScript"]
           (answering (Some 1%nat) Rejects Rejects) (connected adaGraph)
           eq_refl).
  - intros i Hi. destruct i as [|i]; [reflexivity|]. simpl in Hi. lia.
  - reflexivity.
  - intros skill person Hs Hp.
    apply list_elem_of_singleton in Hs as ->.
    apply list_elem_of_singleton in Hp as ->. reflexivity.
Defined.

(** *** The whole workflow *)

Lemma calls_app (t1 t2 : list Event) : calls (t1 ++ t2) = calls t1 ++ calls t2.
Proof. unfold calls. apply List.filter_app. Qed.

Lemma calls_cons e t :
  calls (e :: t) = if isCall e then e :: calls t else calls t.
Proof. reflexivity. Qed.

Lemma no_match_in_queries (asked : list string) :
  existsb isMatchLog
    ((fun skill => Query (Store.MatchPersonsWithSkill skill) true) <$> asked)
  = false.
Proof. induction asked as [|s asked IH]; [reflexivity | exact IH]. Qed.

Lemma existsb_cons {A} (f : A -> bool) x l :
  existsb f (x :: l) = f x || existsb f l.
Proof. reflexivity. Qed.

Ltac simpl_calls :=
  repeat (rewrite ?calls_app, ?calls_cons, ?calls_queries; cbn [isCall]).

(** X10: a run of the workflow in which nothing fails.  When the model
    answers step 2 with a skill sequence, the store answers every query
    and no person of the answers bears an inherited name, the external
    calls are, in order: the skill query, the completion of step 2, one
    person query per skill of the answer (whether or not the skill is
    among the known ones), and one completion for the best matching
    person, whose request carries the reference map of those skills.
    What that completion resolves to, a missing match included, is
    printed last and the run returns; when it rejects, the run throws
    and prints no match. *)
Theorem workflow_success problem useful env w :
  let known := Store.listAllSkills (graph w) in
  let asked := skills useful in
  let w2 := mkWorld true (graph w) (S (S (clock w))) in
  let run := workflow problem env w in
  driver w = true ->
  storeUp env (clock w) = true ->
  completion env (S (clock w)) UsefulSkillsFormat
    (necessaryRequest problem known) = Resolves (Some useful) ->
  (forall i, (i < length asked)%nat -> storeUp env (clock w2 + i) = true) ->
  (forall skill person,
      skill ∈ asked ->
      person ∈ Store.listPersonsWithSkill (graph w) skill ->
      Js.inherited person = false) ->
  exists c,
    represents c
      (Reference.personSkillMap (Store.listPersonsWithSkill (graph w)) asked)
    /\ (getPersonList asked env w2).1.1 = Returned c
    /\ graph run.1.2 = graph w
    /\ match completion env (clock w2 + length asked)
               BestMatchingPersonFormat (matchingRequest c problem) with
       | Rejects =>
           run.1.1 = Thrown ClientError
           /\ existsb isMatchLog run.2 = false
           /\ calls run.2 =
              [Query Store.MatchAllSkills true;
               Completion UsefulSkillsFormat
                 (necessaryRequest problem known) true]
              ++ ((fun skill => Query (Store.MatchPersonsWithSkill skill) true)
                    <$> asked)
              ++ [Completion BestMatchingPersonFormat
                    (matchingRequest c problem) false]
       | Resolves best =>
           run.1.1 = Returned ()
           /\ last run.2 = Some (Console LLog (Match best))
           /\ calls run.2 =
              [Query Store.MatchAllSkills true;
               Completion UsefulSkillsFormat
                 (necessaryRequest problem known) true]
              ++ ((fun skill => Query (Store.MatchPersonsWithSkill skill) true)
                    <$> asked)
              ++ [Completion BestMatchingPersonFormat
                    (matchingRequest c problem) true]
       end.
Proof.
  cbv zeta. intros Hd Hup Huseful Hups Hnames.
  destruct (getPersonList_total (skills useful) env
              (mkWorld true (graph w) (S (S (clock w)))) eq_refl Hups Hnames)
    as [c Hlist].
  exists c. split; [by apply (getPersonList_refines _ _ _ _ _ _ Hlist)|].
  split; [by rewrite Hlist|].
  rewrite run_workflow by done. cbv zeta. rewrite Huseful.
  rewrite run_bind, Hlist, run_bind, run_findMatchingPerson.
  cbn [driver clock graph].
  destruct (completion env _ BestMatchingPersonFormat _) as [|best];
    rewrite ?run_console; cbn [fst snd];
    (split; [reflexivity|]); (split; [reflexivity|]).
  - split.
    + repeat (rewrite ?existsb_app, ?existsb_cons, ?no_match_in_queries;
              cbn [isMatchLog orb]).
      reflexivity.
    + simpl_calls. reflexivity.
  - split.
    + repeat (rewrite ?app_comm_cons, ?app_assoc). apply last_snoc.
    + simpl_calls. reflexivity.
Qed.

Lemma workflow_success_witness :
  let run :=
    workflow "I need a Java expert."
      (answering None (Resolves (Some (mkUsefulSkills ["Java"; "Go"])))
                 (Resolves None))
      (connected adaGraph) in
  run.1.1 = Returned ()
  /\ last run.2 = Some (Console LLog (Match None))
  /\ length (calls run.2) = 5%nat.
Proof.
  cbv zeta.
  destruct (workflow_success "I need a Java expert."
              (mkUsefulSkills ["Java"; "Go"])
              (answering None (Resolves (Some (mkUsefulSkills ["Java"; "Go"])))
                         (Resolves None))
              (connected adaGraph) eq_refl eq_refl eq_refl
              (fun i _ => eq_refl))
    as (c & _ & _ & _ & Hrun & Hlast & Hcalls).
  - intros skill person Hs Hp.
    apply elem_of_cons in Hs as [->|Hs].
    + apply list_elem_of_singleton in Hp as ->. reflexivity.
    + apply list_elem_of_singleton in Hs as ->.
      by apply not_elem_of_nil in Hp.
  - split; [exact Hrun|]. split; [exact Hlast|]. rewrite Hcalls. reflexivity.
Defined.

(** *** The earlier [main] *)

Lemma index_main_upToStepTwo : emits upToStepTwo Index.main.
Proof. run_structure. Qed.

(** X11: the [main] of index.ts stops after step 2: in every run it
    makes at most two external calls (the skill query and the completion
    of step 2), sends no person query, asks for no best matching person,
    prints no match and writes nothing to the store. *)
Theorem index_main_stops_after_step_two env w :
  let run := Index.main env w in
  Forall (fun e => upToStepTwo e = true) run.2
  /\ (length (calls run.2) <= 2)%nat
  /\ existsb isWrite run.2 = false
  /\ graph run.1.2 = graph w.
Proof.
  cbv zeta. split; [apply index_main_upToStepTwo|].
  split; [|split; [|apply index_main_keepsGraph]].
  - unfold Index.main. rewrite run_bind, run_connectDatabase. cbv zeta.
    destruct (missing (processEnv env "NEO4J_URI")); [simpl; lia|].
    destruct (missing (processEnv env "NEO4J_USERNAME")); [simpl; lia|].
    destruct (missing (processEnv env "NEO4J_PASSWORD")); [simpl; lia|].
    destruct (driverAccepts env _); [|simpl; lia].
    destruct (serverAnswers env); [|simpl; lia].
    rewrite run_bind, run_getAllSkills. cbn [driver clock graph].
    destruct (storeUp env (clock w)); [|simpl; lia].
    rewrite (run_bind (forOf _ _ _)), run_idle_loop.
    rewrite run_bind, run_findNecessarySkills. cbn [driver clock graph].
    destruct (completion env _ _ _) as [|[useful|]]; simpl; lia.
  - pose proof (index_main_no_write env w) as Hall.
    destruct (existsb isWrite (Index.main env w).2) eqn:Hex; [|done].
    apply existsb_exists in Hex as (e & Hin & He).
    rewrite Forall_forall in Hall. apply list_elem_of_In, Hall in Hin.
    unfold notWrite in Hin. rewrite He in Hin. discriminate Hin.
Qed.

(** *** Joining the skill names into a prompt *)

Lemma append_assoc (a b c : string) : (a +:+ b) +:+ c = a +:+ b +:+ c.
Proof.
  induction a as [|x a IH]; [reflexivity|].
  change (String x ((a +:+ b) +:+ c) = String x (a +:+ b +:+ c)).
  by f_equal.
Qed.

Lemma join_cons sep x y (l : list string) :
  Js.join sep (x :: y :: l) = x +:+ sep +:+ Js.join sep (y :: l).
Proof. reflexivity. Qed.

Lemma join_merged sep (l1 l2 : list string) x y :
  Js.join sep (l1 ++ (x +:+ sep +:+ y) :: l2)
  = Js.join sep (l1 ++ x :: y :: l2).
Proof.
  induction l1 as [|z l1 IH]; cbn [app].
  - rewrite join_cons. destruct l2 as [|z l2].
    + reflexivity.
    + rewrite !join_cons. by rewrite !append_assoc.
  - destruct l1 as [|z' l1]; cbn [app] in *; rewrite !join_cons; by rewrite IH.
Qed.

Lemma comma_split (a b t t' : string) :
  commaFree a = true -> commaFree b = true ->
  a +:+ String "," t = b +:+ String "," t' -> a = b /\ t = t'.
Proof.
  revert b. induction a as [|c a IH]; intros [|c' b]; simpl.
  - intros _ _ [= ->]. done.
  - intros _ Hb [= <- _]. discriminate Hb.
  - intros Ha _ [= -> _]. discriminate Ha.
  - intros [_ Ha]%andb_true_iff [_ Hb]%andb_true_iff [= -> Heq].
    destruct (IH b Ha Hb Heq) as [-> ->]. done.
Qed.

Lemma comma_absent (a b t : string) :
  commaFree a = true -> a <> b +:+ String "," t.
Proof.
  revert a. induction b as [|c b IH]; intros [|c' a]; simpl; try done.
  - intros Ha [= -> _]. discriminate Ha.
  - intros [_ Ha]%andb_true_iff [= _ Heq]. by apply (IH a).
Qed.

Lemma join_comma_free (l1 : list string) :
  forall l2 : list string,
    Forall (fun s => commaFree s = true) l1 ->
    Forall (fun s => commaFree s = true) l2 ->
    l1 <> [] -> l2 <> [] ->
    Js.join ", " l1 = Js.join ", " l2 -> l1 = l2.
Proof.
  induction l1 as [|x l1 IH]; intros l2 H1 H2 Hne1 Hne2; [done|].
  destruct l2 as [|y l2]; [done|].
  apply Forall_cons in H1 as [Hx H1]. apply Forall_cons in H2 as [Hy H2].
  destruct l1 as [|x' l1], l2 as [|y' l2].
  - simpl. by intros ->.
  - rewrite join_cons. simpl. intros Heq. by apply comma_absent in Heq.
  - rewrite join_cons. simpl. intros Heq. symmetry in Heq.
    by apply comma_absent in Heq.
  - rewrite !join_cons. intros Heq.
    change (", " +:+ ?r) with (String "," (String " " r)) in Heq.
    apply comma_split in Heq as [-> [= Heq]]; [|done..].
    f_equal. by apply IH.
Qed.

(** X12: the prompts name the known skills by joining them with a comma
    and a space, so a skill whose name contains that separator reads as
    two skills: replacing it by its two halves changes neither the prompt
    of [findNecessarySkills] nor that of [extractSkills].  When no name
    contains a comma, two non-empty lists of known skills with the same
    prompt are the same list. *)
Theorem prompt_names_skills (before after known known' : list string)
    (x y person : string) :
  let merged := before ++ (x +:+ ", " +:+ y) :: after in
  let split := before ++ x :: y :: after in
  necessarySystemContent merged = necessarySystemContent split
  /\ extractSystemContent person merged = extractSystemContent person split
  /\ (Forall (fun s => commaFree s = true) known ->
      Forall (fun s => commaFree s = true) known' ->
      known <> [] -> known' <> [] ->
      (necessarySystemContent known = necessarySystemContent known'
       \/ extractSystemContent person known
          = extractSystemContent person known') ->
      known = known').
Proof.
  cbv zeta. split; [|split].
  - unfold necessarySystemContent. by rewrite (join_merged ", ").
  - rewrite !extractSystemContent_nonempty by (by destruct before).
    by rewrite (join_merged ", ").
  - intros Hk Hk' Hne Hne' Heq. apply join_comma_free; try done.
    destruct Heq as [Heq|Heq].
    + unfold necessarySystemContent in Heq. by apply append_inj_l in Heq.
    + rewrite !extractSystemContent_nonempty in Heq by done.
      by do 3 apply append_inj_l in Heq.
Qed.

Lemma prompt_names_skills_witness :
  necessarySystemContent ["C, C++"; "Rust"]
  = necessarySystemContent ["C"; "C++"; "Rust"]
  /\ (necessarySystemContent ["Java"; "Rust"]
      = necessarySystemContent ["Java"; "Rust"]
      -> ["Java"; "Rust"] = ["Java"; "Rust"]).
Proof.
  destruct (prompt_names_skills [] ["Rust"] ["Java"; "Rust"] ["Java"; "Rust"]
              "C" "C++" "Lius Hohmann") as (Hmerged & _ & Hsame).
  split; [exact Hmerged|]. intros Heq. apply Hsame.
  - repeat constructor.
  - repeat constructor.
  - discriminate.
  - discriminate.
  - left. exact Heq.
Defined.

(** *** Assigning a skill, then reading the store *)

Lemma elem_personsWithSkill skill g person :
  person ∈ Store.listPersonsWithSkill g skill
  <-> exists r p s,
        r ∈ Store.rels g
        /\ p ∈ Store.nodes g /\ Store.nodeLabel p = Store.Person
        /\ Store.nodeId p = r.1
        /\ s ∈ Store.nodes g /\ Store.nodeLabel s = Store.Skill
        /\ Store.nodeName s = skill /\ Store.nodeId s = r.2
        /\ Store.nodeName p = person.
Proof.
  unfold Store.listPersonsWithSkill, Store.personsWithSkill.
  rewrite list_elem_of_fmap. split.
  - intros (p & -> & Hp).
    apply list_elem_of_bind in Hp as (r & Hp & Hr).
    apply list_elem_of_bind in Hp as (p' & Hp & Hp').
    apply list_elem_of_bind in Hp as (s & Hp & Hs).
    apply list_elem_of_singleton in Hp as ->.
    apply list_elem_of_filter in Hp' as [[? ?] ?].
    apply list_elem_of_filter in Hs as [(? & ? & ?) ?].
    exists r, p', s. auto 10.
  - intros (r & p & s & Hr & Hp & Hpl & Hpi & Hs & Hsl & Hsn & Hsi & <-).
    exists p. split; [done|].
    apply list_elem_of_bind. exists r. split; [|done].
    apply list_elem_of_bind. exists p. split.
    + apply list_elem_of_bind. exists s. split; [apply list_elem_of_here|].
      apply list_elem_of_filter. auto.
    + apply list_elem_of_filter. auto.
Qed.

Lemma elem_listAllSkills g skill :
  skill ∈ Store.listAllSkills g
  <-> exists s, s ∈ Store.nodes g /\ Store.nodeLabel s = Store.Skill
                /\ Store.nodeName s = skill.
Proof.
  unfold Store.listAllSkills, Store.skillNodes. rewrite list_elem_of_fmap.
  split.
  - intros (s & -> & Hs). apply list_elem_of_filter in Hs as [? ?]. eauto.
  - intros (s & Hs & Hl & <-). exists s. split; [done|].
    apply list_elem_of_filter. auto.
Qed.

Lemma elem_labelled l name g n :
  n ∈ Store.labelled l name g
  <-> n ∈ Store.nodes g /\ Store.nodeLabel n = l /\ Store.nodeName n = name.
Proof. unfold Store.labelled. rewrite list_elem_of_filter. tauto. Qed.

(** After the merge there is a person node and a skill node of the two
    names, and the nodes and relationships from before are still there. *)
Lemma mergePersonSkill_grows person skill g :
  let g' := Store.mergePersonSkill person skill g in
  (exists p, p ∈ Store.labelled Store.Person person g')
  /\ (exists s, s ∈ Store.labelled Store.Skill skill g')
  /\ (forall n, n ∈ Store.nodes g -> n ∈ Store.nodes g')
  /\ (forall r, r ∈ Store.rels g -> r ∈ Store.rels g').
Proof.
  cbv zeta.
  destruct (mergePersonSkill_spec person skill g)
    as (skillId & added & Hnodes & Hrels & _ & _ & _).
  assert (Hgrow : forall n, n ∈ Store.nodes g ->
                    n ∈ Store.nodes (Store.mergePersonSkill person skill g)).
  { intros n Hn. rewrite Hnodes. apply elem_of_app. by left. }
  repeat split.
  - destruct (Store.labelled Store.Person person g) as [|p found] eqn:Hfound.
    + exists (Store.mkNode (Store.freshId g) Store.Person person).
      apply elem_labelled. split; [|done]. rewrite Hnodes.
      apply elem_of_app. right. apply elem_of_app. left.
      apply list_elem_of_here.
    + exists p.
      assert (Hp : p ∈ Store.labelled Store.Person person g)
        by (rewrite Hfound; apply list_elem_of_here).
      apply elem_labelled in Hp as (Hp & ? & ?).
      apply elem_labelled. auto.
  - destruct (Store.labelled Store.Skill skill g) as [|s found] eqn:Hfound.
    + exists (Store.mkNode skillId Store.Skill skill).
      apply elem_labelled. split; [|done]. rewrite Hnodes.
      apply elem_of_app. right. apply elem_of_app. right.
      apply list_elem_of_here.
    + exists s.
      assert (Hs : s ∈ Store.labelled Store.Skill skill g)
        by (rewrite Hfound; apply list_elem_of_here).
      apply elem_labelled in Hs as (Hs & ? & ?).
      apply elem_labelled. auto.
  - exact Hgrow.
  - intros r Hr. rewrite Hrels. apply elem_of_app. by left.
Qed.

Lemma mergePersonSkill_listed person skill g :
  let g' := Store.mergePersonSkill person skill g in
  person ∈ Store.listPersonsWithSkill g' skill
  /\ skill ∈ Store.listAllSkills g'
  /\ (forall s, s ∈ Store.listAllSkills g -> s ∈ Store.listAllSkills g')
  /\ (forall s p, p ∈ Store.listPersonsWithSkill g s ->
                  p ∈ Store.listPersonsWithSkill g' s).
Proof.
  cbv zeta.
  destruct (mergePersonSkill_grows person skill g)
    as ([p Hp] & [s Hs] & Hnodes & Hrels).
  destruct (mergePersonSkill_spec person skill g)
    as (_ & _ & _ & _ & _ & _ & Hall).
  pose proof (Hall p s Hp Hs) as Hrel.
  apply elem_labelled in Hp as (Hp & Hpl & Hpn).
  apply elem_labelled in Hs as (Hs & Hsl & Hsn).
  repeat split.
  - apply elem_personsWithSkill.
    exists (Store.nodeId p, Store.nodeId s), p, s. auto 10.
  - apply elem_listAllSkills. eauto.
  - intros s' (n & Hn & ? & ?)%elem_listAllSkills.
    apply elem_listAllSkills. eauto.
  - intros s' p'
      (r & pn & sn & Hr & Hpn' & ? & ? & Hsn' & ? & ? & ? & ?)%elem_personsWithSkill.
    apply elem_personsWithSkill. exists r, pn, sn. auto 12.
Qed.

(** X13: once [addSkillToPerson] has returned, the store lists the skill
    among all skills and the person among the holders of the skill, and
    every skill and every holder listed before is still listed; a call
    of [getPersonList] for that skill that returns has the skill in the
    entry of the person. *)
Theorem assigned_skill_is_listed person skill env w :
  driver w = true ->
  storeUp env (clock w) = true ->
  let w' := (addSkillToPerson person skill env w).1.2 in
  (addSkillToPerson person skill env w).1.1 = Returned ()
  /\ person ∈ Store.listPersonsWithSkill (graph w') skill
  /\ skill ∈ Store.listAllSkills (graph w')
  /\ (forall s, s ∈ Store.listAllSkills (graph w) ->
                s ∈ Store.listAllSkills (graph w'))
  /\ (forall s p, p ∈ Store.listPersonsWithSkill (graph w) s ->
                  p ∈ Store.listPersonsWithSkill (graph w') s)
  /\ (forall c w2 t,
        getPersonList [skill] env w' = (Returned c, w2, t) ->
        exists held, Js.getOwn c person = Some held /\ skill ∈ held).
Proof.
  intros Hd Hup. cbv zeta. rewrite run_addSkillToPerson. cbv zeta.
  rewrite Hd, Hup. cbn [fst snd graph].
  destruct (mergePersonSkill_listed person skill (graph w))
    as (Hp & Hs & Hskills & Hholders).
  repeat split; try done.
  intros c w2 t Hrun.
  apply (returned_lists _ _ _ _ _ _ Hrun). split; [apply list_elem_of_here|].
  exact Hp.
Qed.

Lemma assigned_skill_is_listed_witness :
  let w' :=
    (addSkillToPerson "Lius Hohmann" "Rust"
       (answering None Rejects Rejects) (connected adaGraph)).1.2 in
  "Lius Hohmann" ∈ Store.listPersonsWithSkill (graph w') "Rust"
  /\ "Ada Lovelace" ∈ Store.listPersonsWithSkill (graph w') "Java".
Proof.
  cbv zeta.
  destruct (assigned_skill_is_listed "Lius Hohmann" "Rust"
              (answering None Rejects Rejects) (connected adaGraph)
              eq_refl eq_refl) as (_ & Hnew & _ & _ & Hold & _).
  split; [exact Hnew|]. apply Hold. apply list_elem_of_here.
Defined.

(** *** The store stays well formed, and a merge adds one pair *)

Lemma freshId_above g n :
  n ∈ Store.nodes g -> (Store.nodeId n < Store.freshId g)%nat.
Proof.
  unfold Store.freshId. induction (Store.nodes g) as [|m ns IH]; csimpl.
  - intros Hn. by apply not_elem_of_nil in Hn.
  - intros [->|Hn]%elem_of_cons; [lia|]. specialize (IH Hn). lia.
Qed.

Lemma freshId_new g : Store.freshId g ∉ Store.nodeId <$> Store.nodes g.
Proof.
  intros (n & Hid & Hn)%list_elem_of_fmap.
  apply freshId_above in Hn. lia.
Qed.

Lemma mergeNode_wellFormed l name g :
  wellFormed g ->
  wellFormed (Store.mergeNode l name g).1
  /\ (forall n, n ∈ Store.nodes g -> n ∈ Store.nodes (Store.mergeNode l name g).1)
  /\ (forall n, n ∈ (Store.mergeNode l name g).2 ->
                n ∈ Store.nodes (Store.mergeNode l name g).1).
Proof.
  intros [Hids Hrels]. unfold Store.mergeNode.
  destruct (Store.labelled l name g) as [|n found] eqn:Hfound;
    cbn [fst snd].
  - split; [split|split]; cbn [Store.nodes Store.rels].
    + rewrite fmap_app. apply NoDup_app. split; [done|].
      split; [|apply NoDup_singleton].
      intros i Hi Hnew. apply list_elem_of_singleton in Hnew as ->.
      by apply freshId_new in Hi.
    + intros r Hr. rewrite fmap_app.
      split; apply elem_of_app; left; by apply Hrels.
    + intros n Hn. apply elem_of_app. by left.
    + intros n Hn. apply elem_of_app. by right.
  - split; [by split|]. split; [done|].
    intros n' Hn'. rewrite <- Hfound in Hn'.
    by apply elem_labelled in Hn' as [? _].
Qed.

Lemma mergeRels_added pairs :
  forall g r,
    r ∈ Store.rels (foldl Store.mergeRel g pairs) ->
    r ∈ Store.rels g \/ r ∈ pairs.
Proof.
  induction pairs as [|q pairs IH]; intros g r; simpl; [by left|].
  intros Hr. apply IH in Hr as [Hr|Hr].
  - unfold Store.mergeRel in Hr.
    destruct (bool_decide (q ∈ Store.rels g)); [by left|]. simpl in Hr.
    apply elem_of_app in Hr as [Hr|Hr]; [by left|].
    apply list_elem_of_singleton in Hr as ->. right. apply list_elem_of_here.
  - right. by apply list_elem_of_further.
Qed.

(** The relationships after the merge: those from before, and pairs of a
    person node and a skill node of the two names. *)
Lemma mergePersonSkill_rels person skill g r :
  let g' := Store.mergePersonSkill person skill g in
  r ∈ Store.rels g' ->
  r ∈ Store.rels g
  \/ exists p s,
       p ∈ Store.labelled Store.Person person g'
       /\ s ∈ Store.labelled Store.Skill skill g'
       /\ r = (Store.nodeId p, Store.nodeId s).
Proof.
  cbv zeta. unfold Store.mergePersonSkill.
  pose proof (mergeNode_spec Store.Person person g) as H1.
  destruct (Store.mergeNode Store.Person person g) as [g1 persons].
  destruct H1 as (_ & Hp1 & Hr1 & _ & _).
  pose proof (mergeNode_spec Store.Skill skill g1) as H2.
  destruct (Store.mergeNode Store.Skill skill g1) as [g2 skills].
  destruct H2 as (_ & Hs2 & Hr2 & _ & Hother).
  set (pairs := p ← persons; s ← skills; [(Store.nodeId p, Store.nodeId s)]).
  pose proof (mergeRels_nodes pairs g2) as Hn.
  intros Hr. apply mergeRels_added in Hr as [Hr|Hr].
  - left. by rewrite <- Hr1, <- Hr2.
  - right. apply list_elem_of_bind in Hr as (p & Hr & Hp).
    apply list_elem_of_bind in Hr as (s & Hr & Hs).
    apply list_elem_of_singleton in Hr as ->. exists p, s.
    rewrite !(labelled_nodes _ _ _ _ Hn).
    rewrite (Hother Store.Person person) by done.
    rewrite Hp1, Hs2. done.
Qed.

Lemma mergePersonSkill_wellFormed person skill g :
  wellFormed g -> wellFormed (Store.mergePersonSkill person skill g).
Proof.
  intros Hg.
  assert (Hmono : forall n, n ∈ Store.nodes
                              (Store.mergePersonSkill person skill g) ->
                            Store.nodeId n ∈
                              Store.nodeId <$> Store.nodes
                                (Store.mergePersonSkill person skill g)).
  { intros n Hn. apply list_elem_of_fmap. eauto. }
  split.
  - unfold Store.mergePersonSkill.
    destruct (mergeNode_wellFormed Store.Person person g Hg) as (Hg1 & _).
    destruct (Store.mergeNode Store.Person person g) as [g1 persons].
    simpl in Hg1.
    destruct (mergeNode_wellFormed Store.Skill skill g1 Hg1) as ([H2 _] & _).
    destruct (Store.mergeNode Store.Skill skill g1) as [g2 skills].
    simpl in H2. by rewrite mergeRels_nodes.
  - intros r Hr. apply mergePersonSkill_rels in Hr as [Hr|(p & s & Hp & Hs & ->)].
    + destruct Hg as [_ Hrels]. destruct (Hrels r Hr) as [Ha Hb].
      destruct (mergePersonSkill_grows person skill g) as (_ & _ & Hnodes & _).
      apply list_elem_of_fmap in Ha as (a & -> & Ha).
      apply list_elem_of_fmap in Hb as (b & -> & Hb).
      split; apply Hmono; auto.
    + apply elem_labelled in Hp as [Hp _]. apply elem_labelled in Hs as [Hs _].
      simpl. split; apply Hmono; auto.
Qed.

Lemma node_by_id (ns : list Store.Node) a b :
  NoDup (Store.nodeId <$> ns) ->
  a ∈ ns -> b ∈ ns -> Store.nodeId a = Store.nodeId b -> a = b.
Proof.
  induction ns as [|n ns IH]; csimpl; intros Hnd Ha Hb Hid.
  - by apply not_elem_of_nil in Ha.
  - apply NoDup_cons in Hnd as [Hn Hnd].
    apply elem_of_cons in Ha as [->|Ha]; apply elem_of_cons in Hb as [->|Hb];
      auto.
    + exfalso. apply Hn. rewrite Hid. apply list_elem_of_fmap. eauto.
    + exfalso. apply Hn. rewrite <- Hid. apply list_elem_of_fmap. eauto.
Qed.

Lemma mergePersonSkill_exact person skill g :
  wellFormed g ->
  let g' := Store.mergePersonSkill person skill g in
  (forall s p,
      p ∈ Store.listPersonsWithSkill g' s
      <-> p ∈ Store.listPersonsWithSkill g s \/ (p = person /\ s = skill))
  /\ (forall s,
        s ∈ Store.listAllSkills g'
        <-> s ∈ Store.listAllSkills g \/ s = skill).
Proof.
  intros Hg. cbv zeta.
  pose proof (mergePersonSkill_wellFormed person skill g Hg) as [Hids' _].
  destruct (mergePersonSkill_grows person skill g) as (_ & _ & Hnodes & _).
  destruct (mergePersonSkill_listed person skill g)
    as (Hp & Hs & Hskills & Hholders).
  split.
  - intros s p. split; [|by intros [?|[-> ->]]; auto].
    intros (r & pn & sn & Hr & Hpn & Hpl & Hpi & Hsn & Hsl & Hsname & Hsi & <-)
             %elem_personsWithSkill.
    apply mergePersonSkill_rels in Hr as [Hr|(p0 & s0 & Hp0 & Hs0 & ->)].
    + left. destruct Hg as [_ Hrels]. destruct (Hrels r Hr) as [Ha Hb].
      apply list_elem_of_fmap in Ha as (a & Haid & Ha).
      apply list_elem_of_fmap in Hb as (b & Hbid & Hb).
      assert (pn = a) as ->
        by (eapply node_by_id; eauto; congruence).
      assert (sn = b) as ->
        by (eapply node_by_id; eauto; congruence).
      apply elem_personsWithSkill. exists r, a, b. auto 12.
    + right. apply elem_labelled in Hp0 as (Hp0 & _ & Hp0n).
      apply elem_labelled in Hs0 as (Hs0 & _ & Hs0n).
      simpl in Hpi, Hsi.
      assert (pn = p0) as -> by (eapply node_by_id; eauto).
      assert (sn = s0) as -> by (eapply node_by_id; eauto).
      split; congruence.
  - intros s. split; [|by intros [?| ->]; auto].
    intros (n & Hn & Hl & <-)%elem_listAllSkills.
    destruct (mergePersonSkill_spec person skill g)
      as (skillId & added & Hnew & _).
    rewrite Hnew in Hn. apply elem_of_app in Hn as [Hn|Hn].
    { left. apply elem_listAllSkills. eauto. }
    apply elem_of_app in Hn as [Hn|Hn].
    + destruct (Store.labelled Store.Person person g);
        [|by apply not_elem_of_nil in Hn].
      apply list_elem_of_singleton in Hn as ->. discriminate Hl.
    + destruct (Store.labelled Store.Skill skill g);
        [|by apply not_elem_of_nil in Hn].
      apply list_elem_of_singleton in Hn as ->. by right.
Qed.

(** X14: the script keeps the store well formed: when node identifiers
    are unique and every relationship joins existing nodes, the same
    holds after [addSkillToPerson] and after a run of [main], however
    they end. *)
Theorem store_stays_wellFormed person skill problem env w :
  wellFormed (graph w) ->
  wellFormed (graph (addSkillToPerson person skill env w).1.2)
  /\ wellFormed (graph (mainWith problem env w).1.2)
  /\ wellFormed (graph (Index.main env w).1.2).
Proof.
  intros Hg. split; [|split].
  - rewrite run_addSkillToPerson. cbv zeta.
    destruct (driver w); [|done].
    destruct (storeUp env (clock w)); [|done].
    by apply mergePersonSkill_wellFormed.
  - by rewrite mainWith_keepsGraph.
  - by rewrite index_main_keepsGraph.
Qed.

Lemma adaGraph_wellFormed : wellFormed adaGraph.
Proof.
  split.
  - vm_compute. repeat (apply NoDup_cons; split;
      [intros Hin; repeat (apply elem_of_cons in Hin as [Hin|Hin];
                           [discriminate Hin|]);
       by apply not_elem_of_nil in Hin|]).
    apply NoDup_nil_2.
  - intros r Hr. apply list_elem_of_singleton in Hr as ->.
    split; apply list_elem_of_In; vm_compute; tauto.
Qed.

Lemma store_stays_wellFormed_witness :
  wellFormed
    (graph (addSkillToPerson "Lius Hohmann" "Rust"
              (answering None Rejects Rejects) (connected adaGraph)).1.2).
Proof.
  apply (store_stays_wellFormed "Lius Hohmann" "Rust" "I need a Java expert."
           (answering None Rejects Rejects) (connected adaGraph)).
  exact adaGraph_wellFormed.
Defined.

(** X15: on a well-formed store, [addSkillToPerson] adds exactly one
    pair to what the readers see: afterwards a person is listed for a
    skill when they were listed for it before or are the person and the
    skill of the call, and a skill is listed when it was listed before
    or is the skill of the call.  Nobody's other skills change. *)
Theorem addSkillToPerson_adds_one_pair person skill env w :
  wellFormed (graph w) ->
  driver w = true ->
  storeUp env (clock w) = true ->
  let g' := graph (addSkillToPerson person skill env w).1.2 in
  (forall s p,
      p ∈ Store.listPersonsWithSkill g' s
      <-> p ∈ Store.listPersonsWithSkill (graph w) s
          \/ (p = person /\ s = skill))
  /\ (forall s,
        s ∈ Store.listAllSkills g'
        <-> s ∈ Store.listAllSkills (graph w) \/ s = skill).
Proof.
  intros Hg Hd Hup. cbv zeta. rewrite run_addSkillToPerson. cbv zeta.
  rewrite Hd, Hup. cbn [fst snd graph]. by apply mergePersonSkill_exact.
Qed.

Lemma addSkillToPerson_adds_one_pair_witness :
  let g' :=
    graph (addSkillToPerson "Lius Hohmann" "Rust"
             (answering None Rejects Rejects) (connected adaGraph)).1.2 in
  "Lius Hohmann" ∉ Store.listPersonsWithSkill g' "Java".
Proof.
  cbv zeta. intros Hin.
  destruct (addSkillToPerson_adds_one_pair "Lius Hohmann" "Rust"
              (answering None Rejects Rejects) (connected adaGraph)
              adaGraph_wellFormed eq_refl eq_refl) as [Hholders _].
  apply Hholders in Hin as [Hin|[_ Hin]]; [|discriminate Hin].
  apply list_elem_of_singleton in Hin. discriminate Hin.
Defined.

(** *** The map in the message of [findMatchingPerson] *)

Lemma insertIndex_perm {V} (e : N * (string * V)) l :
  Js.insertIndex e l ≡ₚ e :: l.
Proof.
  induction l as [|e' l IH]; simpl; [done|].
  destruct (e.1 <=? e'.1); [done|]. rewrite IH. apply Permutation_swap.
Qed.

Lemma indexEntries_perm {V} (o : Js.object V) :
  (Js.indexEntries o).*2 ≡ₚ
  filter (fun kv => Js.arrayIndex kv.1 <> None) o.
Proof.
  unfold Js.indexEntries, Js.object in *.
  induction o as [|[k v] o IH]; csimpl; [done|].
  rewrite filter_cons. cbn [fst].
  destruct (Js.arrayIndex k) as [n|] eqn:Hk.
  - rewrite decide_True by done. cbn [omap list_omap foldr].
    rewrite insertIndex_perm. csimpl. by rewrite IH.
  - rewrite decide_False by (intros H; by apply H). exact IH.
Qed.

Lemma insertIndex_sorted {V} (e : N * (string * V)) l :
  Sorted N.le l.*1 -> Sorted N.le (Js.insertIndex e l).*1.
Proof.
  induction l as [|e' l IH]; csimpl; intros Hs.
  - repeat constructor.
  - destruct (N.leb_spec e.1 e'.1) as [Hle|Hgt]; csimpl.
    + constructor; [done|]. by constructor.
    + apply Sorted_inv in Hs as [Hs Hhd]. constructor; [by apply IH|].
      destruct l as [|e'' l]; csimpl.
      * constructor. lia.
      * apply HdRel_inv in Hhd.
        destruct (N.leb_spec e.1 e''.1); csimpl; constructor; lia.
Qed.

Lemma indexEntries_sorted {V} (o : Js.object V) :
  Sorted N.le (Js.indexEntries o).*1.
Proof.
  unfold Js.indexEntries, Js.object in *.
  generalize (omap (fun kv : string * V =>
                      match Js.arrayIndex kv.1 with
                      | Some n => Some (n, kv)
                      | None => None
                      end) o).
  intros l. induction l as [|e l IH]; csimpl; [constructor|].
  by apply insertIndex_sorted.
Qed.

Lemma indexEntries_index {V} (o : Js.object V) :
  Forall (fun e => Js.arrayIndex e.2.1 = Some e.1) (Js.indexEntries o).
Proof.
  unfold Js.indexEntries, Js.object in *.
  assert (Hall : Forall (fun e : N * (string * V) =>
                           Js.arrayIndex e.2.1 = Some e.1)
                   (omap (fun kv => match Js.arrayIndex kv.1 with
                                    | Some n => Some (n, kv)
                                    | None => None
                                    end) o)).
  { induction o as [|[k v] o IH]; csimpl; [constructor|].
    destruct (Js.arrayIndex k) eqn:Hk; csimpl; [|done].
    constructor; [done | exact IH]. }
  induction Hall as [|e l He Hl IH]; csimpl; [constructor|].
  rewrite insertIndex_perm. by constructor.
Qed.

(** X16: the JSON text of the map in the message of
    [findMatchingPerson] holds each entry of the map exactly once.  The
    persons whose name is an array index (the decimal form of an integer
    below 2^32 - 1) come first, by ascending index; the others follow in
    the order in which [getPersonList] first met them, so a map without
    such names is written in that order. *)
Theorem stringified_entries (o : Js.object (list string)) :
  Js.ownEntries o ≡ₚ o
  /\ (exists indexed,
        Js.ownEntries o
        = indexed.*2 ++ filter (fun kv => Js.arrayIndex kv.1 = None) o
        /\ Sorted N.le indexed.*1
        /\ Forall (fun e => Js.arrayIndex e.2.1 = Some e.1) indexed)
  /\ (Forall (fun kv => Js.arrayIndex kv.1 = None) o -> Js.ownEntries o = o)
  /\ Js.stringifyObject o
     = "{" +:+ Js.join ","
                 ((fun kv => Js.quoteJSONString kv.1 +:+ ":"
                             +:+ Js.stringifyArray kv.2)
                    <$> Js.ownEntries o) +:+ "}".
Proof.
  split; [|split; [|split; [|reflexivity]]].
  - unfold Js.ownEntries, Js.object in *. rewrite indexEntries_perm.
    rewrite Permutation_app_comm.
    rewrite (filter_app_complement
               (fun kv : string * list string => Js.arrayIndex kv.1 = None) o).
    done.
  - exists (Js.indexEntries o). split; [reflexivity|].
    split; [apply indexEntries_sorted | apply indexEntries_index].
  - intros Hnone. unfold Js.ownEntries, Js.indexEntries, Js.object in *.
    assert (Hempty : omap (fun kv : string * list string =>
                             match Js.arrayIndex kv.1 with
                             | Some n => Some (n, kv)
                             | None => None
                             end) o = []).
    { induction Hnone as [|[k v] o Hk Ho IH]; csimpl; [done|].
      cbn [fst] in Hk. by rewrite Hk. }
    rewrite Hempty. csimpl. clear Hempty.
    induction Hnone as [|kv o Hk Ho IH]; [done|].
    rewrite filter_cons, decide_True by done. by f_equal.
Qed.

Lemma stringified_entries_witness :
  Js.ownEntries [("Ada Lovelace", ["Java"]); ("7", ["Rust"]);
                 ("Lius Hohmann", ["C#"]); ("007", ["Go"]); ("3", ["C"])]
  = [("3", ["C"]); ("7", ["Rust"]); ("Ada Lovelace", ["Java"]);
     ("Lius Hohmann", ["C#"]); ("007", ["Go"])]
  /\ Js.ownEntries [("Ada Lovelace", ["Java"]); ("Lius Hohmann", ["C#"])]
     = [("Ada Lovelace", ["Java"]); ("Lius Hohmann", ["C#"])].
Proof.
  split; [reflexivity|].
  apply (stringified_entries
           [("Ada Lovelace", ["Java"]); ("Lius Hohmann", ["C#"])]).
  repeat constructor.
Defined.

(** *** Quoting names *)

Lemma unquote_char c t :
  unquoteBody (Js.quoteChar c +:+ t) = String c (unquoteBody t).
Proof.
  destruct c as [[] [] [] [] [] [] [] []]; reflexivity.
Qed.

Lemma unquote_quoteBody s t :
  unquoteBody (Js.quoteBody s +:+ t) = s +:+ unquoteBody t.
Proof.
  induction s as [|c s IH]; [reflexivity|].
  change (Js.quoteBody (String c s))
    with (Js.quoteChar c +:+ Js.quoteBody s).
  rewrite append_assoc, unquote_char, IH. reflexivity.
Qed.

Lemma append_inj_r (a b : string) c :
  a +:+ String c EmptyString = b +:+ String c EmptyString -> a = b.
Proof.
  revert b. induction a as [|x a IH]; intros [|y b] H; try done.
  - injection H as _ H. symmetry in H. by apply append_empty in H as [_ ?].
  - injection H as _ H. by apply append_empty in H as [_ ?].
  - injection H as -> H. f_equal. by apply IH.
Qed.

Lemma quoteBody_plain s : plain s = true -> Js.quoteBody s = s.
Proof.
  induction s as [|c s IH]; [done|].
  intros [Hc Hs]%andb_true_iff.
  change (Js.quoteBody (String c s))
    with (Js.quoteChar c +:+ Js.quoteBody s).
  rewrite IH by done. clear IH Hs.
  destruct c as [[] [] [] [] [] [] [] []]; try discriminate Hc; reflexivity.
Qed.

(** X17: the quoting of names in the JSON text loses nothing: two names
    with the same quoted form are the same name, and the name can be
    read back from the quoted form.  A name without control characters,
    quotes and backslashes is written as it is, between two quotes. *)
Theorem quoteJSONString_faithful (a b : string) :
  (Js.quoteJSONString a = Js.quoteJSONString b -> a = b)
  /\ unquoteBody (Js.quoteBody a) = a
  /\ (plain a = true ->
      Js.quoteJSONString a = Js.str Js.dquote +:+ a +:+ Js.str Js.dquote).
Proof.
  assert (Hback : forall s, unquoteBody (Js.quoteBody s) = s).
  { intros s. pose proof (unquote_quoteBody s EmptyString) as H.
    assert (Hnil : forall x : string, x +:+ EmptyString = x).
    { induction x as [|c x IH]; [done|].
      change (String c (x +:+ EmptyString) = String c x). by f_equal. }
    by rewrite !Hnil in H. }
  split; [|split; [apply Hback|]].
  - unfold Js.quoteJSONString. intros H.
    apply append_inj_l in H. apply append_inj_r in H.
    rewrite <- (Hback a), <- (Hback b). by rewrite H.
  - intros Hplain. unfold Js.quoteJSONString. by rewrite quoteBody_plain.
Qed.

Lemma quoteJSONString_faithful_witness :
  Js.quoteJSONString "Ada Lovelace"
  = Js.str Js.dquote +:+ "Ada Lovelace" +:+ Js.str Js.dquote.
Proof.
  apply (quoteJSONString_faithful "Ada Lovelace" "Ada Lovelace").
  reflexivity.
Defined.
